(** * AIDataFactory: the dashboard client and the orchestration core

    A shallow embedding of the TypeScript dashboard code
    ([lib/types.ts], [lib/api.ts], [hooks/useSSE.ts],
    [app/jobs/[id]/page.tsx], [components/dashboard/PipelineVisualizer.tsx])
    together with a model of the orchestration core (ledger and
    orchestrator loop), which the repository only describes.

    JavaScript numbers that carry identifiers and indices are integers
    ([Z]); progress values and ratios are rationals ([Q]); strings are
    [string]; [null]/[undefined] is [None]. *)

From Stdlib Require Import ZArith QArith String List Bool Sorted Lia.
From stdpp Require Import base option list gmap strings pretty.
Import ListNotations.

Local Open Scope string_scope.
Local Open Scope list_scope.
Local Open Scope Z_scope.

(** JavaScript [===] on two strings. *)
Definition str_eq (a b : string) : bool := String.eqb a b.
Arguments str_eq : simpl never.

(** Truthiness of a [string | null] value: [null] and the empty string
    are falsy. *)
Definition truthy (s : option string) : bool :=
  match s with
  | None => false
  | Some s => negb (str_eq s EmptyString)
  end.

(** [Array.prototype.findIndex]: the first index whose element passes
    the test, or [-1]. *)
Fixpoint findIndex_from {A : Type} (p : A -> bool) (i : Z) (l : list A) : Z :=
  match l with
  | [] => -1
  | x :: r => if p x then i else findIndex_from p (i + 1) r
  end.

Definition findIndex {A : Type} (p : A -> bool) (l : list A) : Z :=
  findIndex_from p 0 l.

(** A sequence of progress values that never goes down, and the
    percentage range. *)
Definition nondecreasing (l : list Q) : Prop := StronglySorted Qle l.

Definition in_range (q : Q) : Prop := (0 <= q /\ q <= 100)%Q.

(** [delivers d l]: [d] is [l] with elements left out and elements
    repeated, in the order of [l]. *)
Inductive delivers {A : Type} : list A -> list A -> Prop :=
| delivers_nil l : delivers [] l
| delivers_again x d l : delivers d (x :: l) -> delivers (x :: d) (x :: l)
| delivers_skip x d l : delivers d l -> delivers d (x :: l).

(** ** lib/types.ts *)

Local Set Warnings "-register-all".

(** A value produced by [JSON.parse]. *)
Inductive Json :=
| JNull
| JBool (b : bool)
| JNum (n : Q)
| JStr (s : string)
| JArr (items : list Json)
| JObj (fields : list (string * Json)).

Inductive JobStatus := pending | running | completed | failed | cancelled.

Definition all_statuses : list JobStatus :=
  [pending; running; completed; failed; cancelled].

(** The string a status is on the wire and in comparisons. *)
Definition status_name (s : JobStatus) : string :=
  match s with
  | pending => "pending"
  | running => "running"
  | completed => "completed"
  | failed => "failed"
  | cancelled => "cancelled"
  end.

Record JobConfig := {
  urls : list string;
  scraping : option Json;
  processing : option Json;
  generation : option Json;
  quality : option Json;
  export : option Json
}.

Record Job := {
  job_id : Z;
  job_project_id : Z;
  job_status : JobStatus;
  job_stage : option string;
  job_config : JobConfig;
  job_progress : Q;
  job_error : option string;
  job_cost_total : Q;
  job_started_at : option string;
  job_completed_at : option string;
  job_created_at : string
}.

(** [PipelineProgress]: the payload of one streamed event. The hook casts
    whatever [JSON.parse] returns to this type, so [pp_status] is kept as
    the string on the wire; the declared type admits three values. *)
Record PipelineProgress := {
  pp_stage : string;
  pp_progress : Q;
  pp_status : string;
  pp_error : option string
}.

Definition declared_progress_status (s : string) : bool :=
  str_eq s "running" || str_eq s "completed" || str_eq s "failed".

(** ** lib/api.ts *)
Module Api.

Definition API_BASE : string := "http://localhost:8000".

Inductive Method := GET | POST | PUT | DELETE.

(** The second argument of [fetch]. *)
Record RequestInit := {
  init_method : Method;
  init_headers : option (list (string * string));
  init_body : option Json   (* the value given to [JSON.stringify] *)
}.

Definition no_options : RequestInit :=
  {| init_method := GET; init_headers := None; init_body := None |}.

(** What the server answers: [res.ok], [res.status], [res.statusText],
    the body as [res.text()] gives it, and as [res.json()] gives it
    ([None]: the body is not JSON and [res.json()] rejects). *)
Record Response := {
  ok : bool;
  status : Z;
  statusText : string;
  text : string;
  json : option Json
}.

Definition Server := string -> RequestInit -> Response.

Inductive JsError :=
| Error (message : string)
| ErrorOf (detail : Json)        (* [new Error(v)] for a non-string [v] *)
| TypeError (message : string)
| SyntaxError.

Inductive Value := VJson (j : Json) | VText (s : string).

Inductive Promise := Resolved (v : Value) | Rejected (e : JsError).

(** [o.detail] for a parsed value [o]: [None] is [undefined]. Reading a
    property of [null] throws. *)
Fixpoint assoc (k : string) (fields : list (string * Json)) : option Json :=
  match fields with
  | [] => None
  | (k', v) :: r => if str_eq k' k then Some v else assoc k r
  end.

Definition js_truthy (v : option Json) : bool :=
  match v with
  | None | Some JNull => false
  | Some (JBool b) => b
  | Some (JNum n) => negb (Qeq_bool n 0)
  | Some (JStr s) => negb (str_eq s EmptyString)
  | Some (JArr _) | Some (JObj _) => true
  end.

Definition error_of_detail (res : Response) (detail : option Json) : JsError :=
  if js_truthy detail then
    match detail with
    | Some (JStr s) => Error s
    | Some v => ErrorOf v
    | None => Error EmptyString
    end
  else Error ("Request failed: " +:+ pretty (status res)).

Definition request (srv : Server) (path : string) (options : RequestInit)
    : Promise :=
  let res :=
    srv (API_BASE +:+ path)
        {| init_method := init_method options;
           init_headers :=
             (* [{ headers: {"Content-Type": ..., ...options.headers},
                   ...options }]: a [headers] key of [options] wins *)
             match init_headers options with
             | Some h => Some h
             | None => Some [("Content-Type", "application/json")]
             end;
           init_body := init_body options |} in
  if negb (ok res) then
    match json res with
    | None => Rejected (error_of_detail res (Some (JStr (statusText res))))
    | Some JNull =>
        Rejected (TypeError "Cannot read properties of null (reading 'detail')")
    | Some (JObj fields) => Rejected (error_of_detail res (assoc "detail" fields))
    | Some _ => Rejected (error_of_detail res None)
    end
  else
    match json res with
    | Some j => Resolved (VJson j)
    | None => Rejected SyntaxError
    end.

(** What a member of [api] does when called. *)
Inductive Arg := ANum (n : Z) | AStr (s : string) | AJson (j : Json).

(** [`${a}`] in a template literal. A number is an id or a limit,
    an integer printed in decimal digits (below 10^21 in magnitude,
    where JS turns to exponents). The result is the text handed to
    [fetch]; what [fetch] makes of it (dot segments, escapes) is the
    server's side of [Server]. *)
Definition show (a : option Arg) : string :=
  match a with
  | Some (ANum n) => pretty n
  | Some (AStr s) => s
  | Some (AJson _) => "[object Object]"
  | None => "undefined"
  end.

Definition arg_truthy (a : option Arg) : bool :=
  match a with
  | Some (ANum n) => negb (n =? 0)
  | Some (AStr s) => negb (str_eq s EmptyString)
  | Some (AJson j) => js_truthy (Some j)
  | None => false
  end.

Definition body_of (a : option Arg) : option Json :=
  match a with
  | Some (AJson j) => Some j
  | Some (ANum n) => Some (JNum (inject_Z n))
  | Some (AStr s) => Some (JStr s)
  | None => None
  end.

Inductive Result :=
| Async (p : Promise)      (* the member returns a promise *)
| Sync (s : string).       (* the member returns a string at once *)

Definition Member := Server -> list Arg -> Result.

Definition via_request (path : list Arg -> string)
    (options : list Arg -> RequestInit) : Member :=
  fun srv args => Async (request srv (path args) (options args)).

Definition with_method (m : Method) (body : option Json) : RequestInit :=
  {| init_method := m; init_headers := None; init_body := body |}.

(** The object literal [api], member by member, in source order. *)
Definition api : list (string * Member) :=
  [ ("getProjects",
      via_request (fun _ => "/api/projects") (fun _ => no_options));
    ("getProject",
      via_request (fun a => "/api/projects/" +:+ show (a !! 0%nat))
                  (fun _ => no_options));
    ("createProject",
      via_request (fun _ => "/api/projects")
                  (fun a => with_method POST (body_of (a !! 0%nat))));
    ("deleteProject",
      via_request (fun a => "/api/projects/" +:+ show (a !! 0%nat))
                  (fun _ => with_method DELETE None));
    ("getJobs",
      via_request (fun a => "/api/projects/" +:+ show (a !! 0%nat) +:+ "/jobs")
                  (fun _ => no_options));
    ("getJob",
      via_request (fun a => "/api/jobs/" +:+ show (a !! 0%nat))
                  (fun _ => no_options));
    ("createJob",
      via_request (fun a => "/api/projects/" +:+ show (a !! 0%nat) +:+ "/jobs")
                  (fun a => with_method POST (body_of (a !! 1%nat))));
    ("cancelJob",
      via_request (fun a => "/api/jobs/" +:+ show (a !! 0%nat) +:+ "/cancel")
                  (fun _ => with_method POST None));
    ("getExports",
      via_request (fun a => "/api/jobs/" +:+ show (a !! 0%nat) +:+ "/exports")
                  (fun _ => no_options));
    ("getDatasetCard",
      fun srv a =>
        let r := srv (API_BASE +:+ "/api/exports/" +:+ show (a !! 0%nat)
                        +:+ "/card") no_options in
        Async (Resolved (VText (text r))));
    ("getDownloadUrl",
      fun _ a =>
        Sync (API_BASE +:+ "/api/exports/" +:+ show (a !! 0%nat)
                +:+ "/download"));
    ("getOverview",
      via_request (fun _ => "/api/stats/overview") (fun _ => no_options));
    ("getCosts",
      via_request
        (fun a => "/api/stats/costs" +:+
                  (if arg_truthy (a !! 0%nat)
                   then "?limit=" +:+ show (a !! 0%nat) else EmptyString))
        (fun _ => no_options));
    ("getTemplates",
      via_request (fun _ => "/api/templates") (fun _ => no_options));
    ("getTemplate",
      via_request (fun a => "/api/templates/" +:+ show (a !! 0%nat))
                  (fun _ => no_options)) ].

(** Property access [api.name]: [None] is [undefined]. *)
Fixpoint member (name : string) (obj : list (string * Member)) : option Member :=
  match obj with
  | [] => None
  | (k, m) :: r => if str_eq k name then Some m else member name r
  end.

(** The call [api.name(args)]: calling [undefined] throws a [TypeError]. *)
Definition call (name : string) (srv : Server) (args : list Arg) : Result :=
  match member name api with
  | Some m => m srv args
  | None => Async (Rejected (TypeError ("api." +:+ name +:+ " is not a function")))
  end.

Definition cancelJob (srv : Server) (id : Z) : Result :=
  call "cancelJob" srv [ANum id].

Definition getDatasetCard (srv : Server) (exportId : Z) : Result :=
  call "getDatasetCard" srv [ANum exportId].

(** The member names of the later revision of the client, which adds the
    HuggingFace, custom-template, comparison and settings calls. *)
Definition api_names_extended : list string :=
  map fst api ++
  [ "pushToHuggingFace"; "getCustomTemplates"; "getCustomTemplate";
    "createCustomTemplate"; "updateCustomTemplate"; "deleteCustomTemplate";
    "compareJobs"; "getSettings" ].

End Api.

(** ** hooks/useSSE.ts *)
Module UseSSE.

(** The hook's two state cells and the [EventSource] it holds:
    [es_open] says that a source exists and has not been closed. *)
Record State := {
  progress : option PipelineProgress;
  connected : bool;
  es_open : bool
}.

Definition initial : State :=
  {| progress := None; connected := false; es_open := false |}.

(** [event.data]: either [JSON.parse] throws on it (keepalive pings) or
    it is a payload of the declared type, its [status] any string.
    Messages that parse to another JSON value are those of
    [UseSSEJson]. *)
Inductive MessageData := NotJson | Payload (p : PipelineProgress).

Inductive Event := Open | Message (d : MessageData) | Failure.

Definition close (st : State) : State :=
  {| progress := progress st; connected := false; es_open := false |}.

(** [connect]: [if (!jobId) return;] then a new source is created. *)
Definition connect (jobId : option Z) (st : State) : State :=
  match jobId with
  | None => st
  | Some n =>
      if n =? 0 then st
      else {| progress := progress st; connected := connected st;
              es_open := true |}
  end.

Definition onopen (st : State) : State :=
  {| progress := progress st; connected := true; es_open := es_open st |}.

Definition onmessage (d : MessageData) (st : State) : State :=
  match d with
  | NotJson => st
  | Payload data =>
      let st1 := {| progress := Some data; connected := connected st;
                    es_open := es_open st |} in
      if str_eq (pp_status data) "completed" || str_eq (pp_status data) "failed"
      then close st1
      else st1
  end.

Definition onerror (st : State) : State := close st.

(** The effect's cleanup, run on unmount and before [connect] runs
    again. *)
Definition cleanup (st : State) : State := close st.

(** A closed source dispatches nothing. *)
Definition dispatch (st : State) (e : Event) : State :=
  if es_open st then
    match e with
    | Open => onopen st
    | Message d => onmessage d st
    | Failure => onerror st
    end
  else st.

(** The hook's successive states under a sequence of events. *)
Fixpoint states (st : State) (evs : list Event) : list State :=
  match evs with
  | [] => []
  | e :: r => let st' := dispatch st e in st' :: states st' r
  end.

Definition useSSE (jobId : option Z) (evs : list Event) : list State :=
  states (connect jobId initial) evs.

(** The payloads a subscriber holds, one per state in which there is
    one, and the progress values it sees. *)
Definition held (sts : list State) : list PipelineProgress :=
  omap progress sts.

Definition observed (sts : list State) : list Q :=
  map pp_progress (held sts).

(** The payloads among a sequence of events, in order. *)
Definition payloads (evs : list Event) : list PipelineProgress :=
  omap (fun e => match e with
                 | Message (Payload p) => Some p
                 | _ => None
                 end) evs.

(** The terminal statuses as the design document lists them:
    completed, failed, cancelled. *)
Definition spec_terminal_status (s : string) : bool :=
  str_eq s "completed" || str_eq s "failed" || str_eq s "cancelled".

End UseSSE.

(** ** app/jobs/[id]/page.tsx *)
Module JobDetailPage.

(** [job?.status === "running" ? jobId : null] *)
Definition sseJobId (job : option Job) (jobId : Z) : option Z :=
  match job with
  | Some j => if str_eq (status_name (job_status j)) "running"
              then Some jobId else None
  | None => None
  end.

Definition or_else (a b : option string) : option string :=
  if truthy a then a else b.

(** [progress?.stage || job?.stage || null] *)
Definition currentStage (progress : option PipelineProgress) (job : option Job)
    : option string :=
  or_else (or_else (pp_stage <$> progress) (job ≫= job_stage)) None.

(** [progress?.progress ?? job?.progress ?? 0] *)
Definition currentProgress (progress : option PipelineProgress)
    (job : option Job) : Q :=
  match progress with
  | Some p => pp_progress p
  | None => match job with
            | Some j => job_progress j
            | None => 0%Q
            end
  end.

(** [progress?.status === "completed" ? "completed" : job?.status ?? "pending"] *)
Definition effectiveStatus (progress : option PipelineProgress)
    (job : option Job) : string :=
  if match progress with
     | Some p => str_eq (pp_status p) "completed"
     | None => false
     end
  then "completed"
  else match job with
       | Some j => status_name (job_status j)
       | None => "pending"
       end.

(** The three guarded buttons of the header. *)
Definition showCancel (job : Job) : bool :=
  str_eq (status_name (job_status job)) "running".

Definition showRetry (job : Job) : bool :=
  str_eq (status_name (job_status job)) "failed"
  || str_eq (status_name (job_status job)) "cancelled".

Definition showResults (job : Job) : bool :=
  str_eq (status_name (job_status job)) "completed".

(** What a handler ends up doing. [RouterPush id] is
    [router.push(`/jobs/${id}`)]; [Nothing] is the empty [catch]. *)
Inductive Effect :=
| Refetch
| RouterPush (id : option Json)
| Nothing.

Definition handleCancel (srv : Api.Server) (jobId : Z) : Effect :=
  match Api.call "cancelJob" srv [Api.ANum jobId] with
  | Api.Async (Api.Resolved _) | Api.Sync _ => Refetch
  | Api.Async (Api.Rejected _) => Nothing
  end.

Definition handleRetry (srv : Api.Server) (jobId : Z) : Effect :=
  match Api.call "retryJob" srv [Api.ANum jobId] with
  | Api.Async (Api.Resolved (Api.VJson JNull)) => Nothing
  | Api.Async (Api.Resolved (Api.VJson (JObj fields))) =>
      RouterPush (Api.assoc "id" fields)
  | Api.Async (Api.Resolved _) | Api.Sync _ => RouterPush None
  | Api.Async (Api.Rejected _) => Nothing
  end.

End JobDetailPage.

(** ** components/dashboard/PipelineVisualizer.tsx *)
Module PipelineVisualizer.

Record PipelineStage := { key : string; label : string }.

Definition stages : list PipelineStage :=
  [ {| key := "spider"; label := "Spider" |};
    {| key := "refiner"; label := "Refiner" |};
    {| key := "factory"; label := "Factory" |};
    {| key := "inspector"; label := "Inspector" |};
    {| key := "shipper"; label := "Shipper" |} ].

Inductive StageStatus := SPending | SActive | SCompleted | SFailed.

Definition currentIndexOf (currentStage : option string) : Z :=
  findIndex (fun s => match currentStage with
                      | Some c => str_eq (key s) c
                      | None => false
                      end) stages.

Definition getStageStatus (stageIndex : Z) (currentStage : option string)
    (jobStatus : string) : StageStatus :=
  if str_eq jobStatus "completed" then SCompleted
  else if str_eq jobStatus "cancelled" then SPending
  else if negb (truthy currentStage) then
    (if str_eq jobStatus "pending" then SPending else SPending)
  else
    let currentIndex := currentIndexOf currentStage in
    if str_eq jobStatus "failed" then
      if stageIndex <? currentIndex then SCompleted
      else if stageIndex =? currentIndex then SFailed
      else SPending
    else
      if stageIndex <? currentIndex then SCompleted
      else if stageIndex =? currentIndex then SActive
      else SPending.

(** The statuses the component renders: [stages.map((stage, index) =>
    getStageStatus(index, currentStage, jobStatus))]. *)
Definition stageStatuses (currentStage : option string) (jobStatus : string)
    : list StageStatus :=
  imap (fun index _ => getStageStatus (Z.of_nat index) currentStage jobStatus)
       stages.

(** The display pattern: [completed]* ([active] | [failed])? [pending]*. *)
Definition is_pending (s : StageStatus) : bool :=
  match s with SPending => true | _ => false end.

Fixpoint well_shaped (l : list StageStatus) : bool :=
  match l with
  | [] => true
  | SCompleted :: r => well_shaped r
  | SActive :: r | SFailed :: r | SPending :: r => forallb is_pending r
  end.

End PipelineVisualizer.

(** * The orchestration core

    The repository holds the dashboard and the planning documents; the
    worker that runs the pipeline is described, not included. The ledger
    and the orchestrator loop below follow that description. *)
Module Core.

(** ** Partial-result ledger *)

Inductive OutcomeKind := o_success | o_failed | o_retried.

(** Modelled from the spec: the ledger entry type is missing; (job id,
    stage name, item id, outcome, error detail, attempt count,
    timestamp). *)
Record StageOutcome := {
  e_job : Z;
  e_stage : string;
  e_item : Z;
  e_outcome : OutcomeKind;
  e_error : option string;
  e_attempt : nat;
  e_timestamp : Z
}.

(** Modelled from the spec: the ledger store is missing; an append-only
    log of [StageOutcome] entries, oldest first. *)
Definition Ledger := list StageOutcome.

(** Modelled from the spec: [record(outcome)] is missing; it appends one
    entry and touches no other. *)
Definition record (e : StageOutcome) (l : Ledger) : Ledger := l ++ [e].

Definition in_scope (job : Z) (stage : string) (e : StageOutcome) : bool :=
  (e_job e =? job) && str_eq (e_stage e) stage.

(** Modelled from the spec: [load(job id, stage name)] is missing; it
    returns the latest outcome per item, the most recent entry of an item
    being the one appended last. *)
Definition load (job : Z) (stage : string) (l : Ledger) : gmap Z StageOutcome :=
  foldl (fun m e => if in_scope job stage e then <[e_item e := e]> m else m)
        ∅ l.

(** The current truth for one (job, stage, item). *)
Definition latest (job : Z) (stage : string) (item : Z) (l : Ledger)
    : option StageOutcome :=
  load job stage l !! item.

(** Modelled from the spec: [summary(job id, stage name)] is missing; it
    counts the latest outcomes by kind: (success, failed, retried). *)
Definition summary (job : Z) (stage : string) (l : Ledger) : nat * nat * nat :=
  map_fold (fun _ e '(s, f, r) =>
              match e_outcome e with
              | o_success => (S s, f, r)
              | o_failed => (s, S f, r)
              | o_retried => (s, f, S r)
              end) (0, 0, 0)%nat (load job stage l).

(** ** Stage contract *)

(** Modelled from the spec: the item type is missing; an opaque record
    with an id, a parent id for lineage, and a payload the core does not
    read. *)
Record Item := { item_id : Z; parent_id : option Z; payload : string }.

Inductive ErrorClass := Transient | Permanent.

Record ItemFailure := {
  f_item : Z;
  f_class : ErrorClass;
  f_detail : string;
  f_attempts : nat
}.

(** Modelled from the spec: the result type of [process] is missing; the
    surviving items, the per-item failures with their classification, a
    fatal error if the stage could produce nothing, and statistics. *)
Record Outcome := {
  survivors : list Item;
  failures : list ItemFailure;
  fatal : option string;          (* a fatal, non-item-level error *)
  stage_cost : Q;                 (* statistics: cost *)
  attempts : Z -> nat             (* statistics: attempts per item *)
}.

Record StageConfig := {
  max_concurrent : nat;
  rate_interval : Q;
  retry_attempts : nat;
  abort_threshold : Q
}.

(** Modelled from the spec: the stage contract is missing; a name,
    [validate] and [process]. *)
Record Stage := {
  stage_name : string;
  validate : list Item -> bool;
  process : list Item -> StageConfig -> Outcome
}.

(** ** Orchestrator state machine *)

(** Modelled from the spec: the orchestrator's states are missing;
    [Running i]: stage [i], counted from 1, is the current one. *)
Inductive State := Pending | Running (i : nat) | Completed | Failed | Cancelled.

Definition status_of (s : State) : JobStatus :=
  match s with
  | Pending => pending
  | Running _ => running
  | Completed => completed
  | Failed => failed
  | Cancelled => cancelled
  end.

(** Modelled from the spec: the transition relation is missing;
    Pending -> Running 1, and from Running i to Running (i+1),
    Completed, Failed or Cancelled. *)
Inductive step : State -> State -> Prop :=
| step_start : step Pending (Running 1)
| step_next i : step (Running i) (Running (S i))
| step_completed i : step (Running i) Completed
| step_failed i : step (Running i) Failed
| step_cancelled i : step (Running i) Cancelled.

(** What the orchestrator does, in the order it does it. [Persist]:
    a write of the Job record, published as it is made. [Invoke]:
    [process] ran over the whole input of the stage. [Interrupt]: a
    cancellation request was found between two batches, and [process]
    ran over the items dispatched until then. *)
Inductive Action :=
| CheckCancel (i : nat) (requested : bool)
| Invoke (i : nat) (st : Stage) (input : list Item) (out : Outcome)
| Interrupt (i : nat) (st : Stage) (dispatched : list Item) (out : Outcome)
| Append (e : StageOutcome)
| Persist (s : State) (j : Job).

(** Modelled from the spec: the job store's
    [save_job_fields(id, status, stage, progress, error, cost)] is
    missing; it overwrites these five fields and no other. *)
Definition save_job_fields (j : Job) (st : JobStatus) (stage : option string)
    (progress : Q) (error : option string) (cost : Q) : Job :=
  {| job_id := job_id j; job_project_id := job_project_id j;
     job_status := st; job_stage := stage; job_config := job_config j;
     job_progress := progress; job_error := error; job_cost_total := cost;
     job_started_at := job_started_at j;
     job_completed_at := job_completed_at j;
     job_created_at := job_created_at j |}.

(** Modelled from the spec: the failure ratio of a stage is missing;
    failed items over input items (zero for an empty input). *)
Definition failure_ratio (out : Outcome) (input : list Item) : Q :=
  (inject_Z (Z.of_nat (length (failures out)))
   / inject_Z (Z.of_nat (length input)))%Q.

(** Modelled from the spec: the abort test is missing; the ratio exceeds
    the stage's configured threshold. *)
Definition exceeds_threshold (out : Outcome) (input : list Item)
    (cfg : StageConfig) : bool :=
  negb (Qle_bool (failure_ratio out input) (abort_threshold cfg)).

(** Modelled from the spec: the recording of item outcomes is missing;
    one [success] entry per surviving item and one [failed] entry per
    failure. *)
Definition outcome_entries (job : Z) (stage : string) (out : Outcome) (t : Z)
    : list StageOutcome :=
  map (fun it => {| e_job := job; e_stage := stage; e_item := item_id it;
                    e_outcome := o_success; e_error := None;
                    e_attempt := attempts out (item_id it);
                    e_timestamp := t |}) (survivors out)
  ++ map (fun f => {| e_job := job; e_stage := stage; e_item := f_item f;
                      e_outcome := o_failed; e_error := Some (f_detail f);
                      e_attempt := f_attempts f;
                      e_timestamp := t |}) (failures out).

(** Modelled from the spec: the check between batches is missing. A
    stage dispatches its items in batches of [max_concurrent] (one at
    least) and looks for a request before each batch but the first,
    which follows the check of step 2b. With a request pending once
    batch [b] is out, the dispatch stops at the next check if items are
    left; the result holds the items dispatched until then. A request
    that comes when the last batch is out meets no check in this
    stage. *)
Definition dispatched_before (cfg : StageConfig) (items : list Item)
    (seen : option nat) : option (list Item) :=
  match seen with
  | Some b =>
      let n := (Nat.max 1 b * Nat.max 1 (max_concurrent cfg))%nat in
      if (n <? length items)%nat then Some (take n items) else None
  | None => None
  end.

Section Orchestrator.

(** The progress value persisted once [k] stages are done; the design
    fixes its range and direction, not its formula. *)
Variable progress_after : nat -> Q.

(** Whether a cancellation request is pending when stage [i] is about
    to start. *)
Variable cancel_requested : nat -> bool.

(** A cancellation request raised while stage [i] runs: [Some b]
    when it is pending once the [b]-th batch of the stage is out,
    [None] when none is raised during the stage. *)
Variable cancel_during : nat -> option nat.

(** The per-stage options of the job's configuration. *)
Variable config : string -> StageConfig.

Definition abort_message (st : Stage) : string :=
  "stage " +:+ stage_name st +:+ ": failure ratio above the abort threshold".

Definition invalid_message (st : Stage) : string :=
  "stage " +:+ stage_name st +:+ ": input rejected by validate".

(** Modelled from the spec: the orchestrator loop is missing; steps 2
    and 3 of the state machine, for the stages still to run. [i] is
    the number of the first of them, [job] the record as last
    persisted, [items] the surviving item set, [t] a logical clock.
    Cancellation is looked for where the description puts its checks:
    before a stage starts (step 2b) and between the batches of a
    running stage; a request found at either ends the job
    [Cancelled], the outcomes of the items already dispatched being
    recorded first. Nothing is checked after the last batch of the
    last stage. *)
Fixpoint run_stages (i : nat) (rest : list Stage) (job : Job)
    (items : list Item) (t : Z) : list Action :=
  match rest with
  | [] =>
      [Persist Completed
         (save_job_fields job completed (job_stage job) (job_progress job)
            (job_error job) (job_cost_total job))]
  | st :: rest' =>
      CheckCancel i (cancel_requested i) ::
      if cancel_requested i then
        [Persist Cancelled
           (save_job_fields job cancelled (job_stage job) (job_progress job)
              (job_error job) (job_cost_total job))]
      else if negb (validate st items) then
        [Persist Failed
           (save_job_fields job failed (job_stage job) (job_progress job)
              (Some (invalid_message st)) (job_cost_total job))]
      else
        let cfg := config (stage_name st) in
        match dispatched_before cfg items (cancel_during i) with
        | Some sent =>
            let out := process st sent cfg in
            Interrupt i st sent out ::
            map Append (outcome_entries (job_id job) (stage_name st) out t) ++
            [Persist Cancelled
               (save_job_fields job cancelled (job_stage job)
                  (job_progress job) (job_error job) (job_cost_total job))]
        | None =>
            let out := process st items cfg in
            Invoke i st items out ::
            map Append (outcome_entries (job_id job) (stage_name st) out t) ++
            match fatal out with
            | Some msg =>
                [Persist Failed
                   (save_job_fields job failed (job_stage job) (job_progress job)
                      (Some msg) (job_cost_total job))]
            | None =>
                if exceeds_threshold out items cfg then
                  [Persist Failed
                     (save_job_fields job failed (job_stage job)
                        (job_progress job) (Some (abort_message st))
                        (job_cost_total job))]
                else
                  let next :=
                    match rest' with
                    | [] => (Running i, job_stage job)
                    | st' :: _ => (Running (S i), Some (stage_name st'))
                    end in
                  let job' :=
                    save_job_fields job running (snd next) (progress_after i)
                      (job_error job) (job_cost_total job + stage_cost out)%Q in
                  Persist (fst next) job' ::
                  run_stages (S i) rest' job' (survivors out) (t + 1)
            end
        end
  end.

(** Modelled from the spec: the orchestrator's entry point is missing;
    step 1 (transition to Running(stage=1), persist, publish) and then
    the loop over the registry. *)
Definition run (registry : list Stage) (job : Job) (input : list Item)
    : list Action :=
  let job1 :=
    save_job_fields job running (stage_name <$> head registry)
      (job_progress job) (job_error job) (job_cost_total job) in
  Persist (Running 1) job1 :: run_stages 1 registry job1 input 0.

End Orchestrator.

(** Projections of a run. *)
Definition persisted (tr : list Action) : list Job :=
  omap (fun a => match a with Persist _ j => Some j | _ => None end) tr.

Definition visited (tr : list Action) : list State :=
  omap (fun a => match a with Persist s _ => Some s | _ => None end) tr.

Definition invoked (tr : list Action) : list nat :=
  omap (fun a => match a with Invoke i _ _ _ => Some i | _ => None end) tr.

Definition appended (tr : list Action) : Ledger :=
  omap (fun a => match a with Append e => Some e | _ => None end) tr.

Definition final_job (job0 : Job) (tr : list Action) : Job :=
  default job0 (last (persisted tr)).

(** The orchestrator found a cancellation request at one of the checks
    of stage [k]: before the stage started, or between two of its
    batches. *)
Definition found_pending (k : nat) (tr : list Action) : Prop :=
  In (CheckCancel k true) tr
  \/ exists st sent out, In (Interrupt k st sent out) tr.

(** Adjacent states of a history obey [step]; a write that keeps the
    state (the progress update that ends the last stage) is no
    transition. *)
Fixpoint follows (s : State) (l : list State) : Prop :=
  match l with
  | [] => True
  | s' :: r => (s' = s \/ step s s') /\ follows s' r
  end.

End Core.

(** * More of the dashboard *)

(** ** lib/types.ts, continued *)

Record Project := {
  prj_id : Z;
  prj_name : string;
  prj_description : option string;
  prj_config : option Json;
  prj_created_at : string;
  prj_updated_at : string
}.

Record JobComparisonItem := {
  cmp_job_id : Z;
  cmp_status : string;
  cmp_template_type : option string;
  cmp_total_examples : Z;
  cmp_passed_examples : Z;
  cmp_failed_examples : Z;
  cmp_avg_quality_score : Q;
  cmp_cost_total : Q;
  cmp_pass_rate : Q
}.

(** What a page shows for a caught error: [err.message]. The text of a
    [new Error(v)] with a non-string [v] and the engine's text for a
    JSON syntax error are not spelled out. *)
Inductive Shown :=
| Text (s : string)
| TextOf (v : Json)
| EngineText.

Definition message_of (e : Api.JsError) : Shown :=
  match e with
  | Api.Error s => Text s
  | Api.ErrorOf v => TextOf v
  | Api.TypeError s => Text s
  | Api.SyntaxError => EngineText
  end.

(** ** components/dashboard/PipelineVisualizer.tsx, continued *)
Module Connectors.
Import PipelineVisualizer.

Inductive ConnectionStatus := CPending | CActive | CCompleted.

Definition getConnectionStatus (stageIndex : Z) (currentStage : option string)
    (jobStatus : string) : ConnectionStatus :=
  if str_eq jobStatus "completed" then CCompleted
  else
    let currentIndex := currentIndexOf currentStage in
    if stageIndex <? currentIndex then CCompleted
    else if stageIndex =? currentIndex then CActive
    else CPending.

(** One rendered stage: the props of its [StageNode] and, except after
    the last stage, the status of the [ConnectionLine] that follows. *)
Record Rendered := {
  r_status : StageStatus;
  r_isActive : bool;
  r_connection : option ConnectionStatus
}.

(** The body of [PipelineVisualizer]: [stages.map((stage, index) => ...)]. *)
Definition render (currentStage : option string) (jobStatus : string)
    : list Rendered :=
  imap (fun index stage =>
          {| r_status := getStageStatus (Z.of_nat index) currentStage jobStatus;
             r_isActive :=
               match currentStage with
               | Some c => str_eq (key stage) c
               | None => false
               end && str_eq jobStatus "running";
             r_connection :=
               if Z.of_nat index <? Z.of_nat (length stages) - 1
               then Some (getConnectionStatus (Z.of_nat index) currentStage
                            jobStatus)
               else None |})
       stages.

(** [StageNode] prints the percentage under a stage when
    [isActive && status === "active"]. *)
Definition showsProgress (r : Rendered) : bool :=
  r_isActive r && match r_status r with SActive => true | _ => false end.

(** A connector status read as a stage status. *)
Definition as_stage (c : ConnectionStatus) : StageStatus :=
  match c with
  | CPending => SPending
  | CActive => SActive
  | CCompleted => SCompleted
  end.

End Connectors.

(** ** app/jobs/[id]/page.tsx, continued *)
Module JobDetailCards.
Import JobDetailPage.

(** The Current Stage card: [{currentStage || "Queued"}]. *)
Definition stageCard (progress : option PipelineProgress) (job : option Job)
    : string :=
  match or_else (currentStage progress job) (Some "Queued") with
  | Some s => s
  | None => "Queued"
  end.

End JobDetailCards.

(** ** hooks/useSSE.ts, continued *)
Module StreamEvents.
Import UseSSE.

(** An event that closes the stream when it is dispatched: an error, or
    a payload whose status is [completed] or [failed]. *)
Definition closes (e : Event) : bool :=
  match e with
  | Failure => true
  | Message (Payload p) =>
      str_eq (pp_status p) "completed" || str_eq (pp_status p) "failed"
  | _ => false
  end.

(** The state after all of [evs]. *)
Definition final (st : State) (evs : list Event) : State :=
  foldl dispatch st evs.

(** The events an open stream still reacts to: those up to and
    including the first that closes it. *)
Fixpoint live_prefix (evs : list Event) : list Event :=
  match evs with
  | [] => []
  | e :: r => e :: (if closes e then [] else live_prefix r)
  end.

(** [l] with its elements repeated: the [i]-th one [counts !! i]
    times. *)
Definition repeated {A : Type} (counts : list nat) (l : list A) : list A :=
  concat (zip_with replicate counts l).

End StreamEvents.

(** ** hooks/useSSE.ts, before the cast

    [const data: PipelineProgress = JSON.parse(event.data)] checks
    nothing: [data] is whatever JSON value the message holds, and
    [setProgress(data)] runs before [data.status] is read. [UseSSE]
    is this hook on the messages the declared type admits. *)
Module UseSSEJson.

(** The state cell [progress] holds any JSON value; [JNull] is the
    [null] it starts with. *)
Record State := {
  progress : Json;
  connected : bool;
  es_open : bool
}.

Definition initial : State :=
  {| progress := JNull; connected := false; es_open := false |}.

(** [event.data] as [JSON.parse] returns it; [None]: it throws. *)
Inductive Event := Open | Message (data : option Json) | Failure.

Definition close (st : State) : State :=
  {| progress := progress st; connected := false; es_open := false |}.

(** [data.status === s]: only an object has a [status]. *)
Definition status_is (data : Json) (s : string) : bool :=
  match data with
  | JObj fields =>
      match Api.assoc "status" fields with
      | Some (JStr x) => str_eq x s
      | _ => false
      end
  | _ => false
  end.

Definition onmessage (data : option Json) (st : State) : State :=
  match data with
  | None => st
  | Some v =>
      let st1 := {| progress := v; connected := connected st;
                    es_open := es_open st |} in
      match v with
      | JNull => st1   (* [null.status] throws, after [setProgress(null)] *)
      | _ =>
          if status_is v "completed" || status_is v "failed"
          then close st1
          else st1
      end
  end.

Definition dispatch (st : State) (e : Event) : State :=
  if es_open st then
    match e with
    | Open => {| progress := progress st; connected := true;
                 es_open := es_open st |}
    | Message d => onmessage d st
    | Failure => close st
    end
  else st.

Definition final (st : State) (evs : list Event) : State :=
  foldl dispatch st evs.

Definition closes (e : Event) : bool :=
  match e with
  | Failure => true
  | Message (Some v) => status_is v "completed" || status_is v "failed"
  | _ => false
  end.

(** The values of the messages that parse, in order. *)
Definition parsed (evs : list Event) : list Json :=
  omap (fun e => match e with Message d => d | _ => None end) evs.

(** A payload of the declared type, as the JSON value it is. *)
Definition encode (p : PipelineProgress) : Json :=
  JObj ([("stage", JStr (pp_stage p)); ("progress", JNum (pp_progress p));
         ("status", JStr (pp_status p))]
        ++ match pp_error p with
           | Some e => [("error", JStr e)]
           | None => []
           end).

Definition of_state (st : UseSSE.State) : State :=
  {| progress := match UseSSE.progress st with
                 | Some p => encode p
                 | None => JNull
                 end;
     connected := UseSSE.connected st; es_open := UseSSE.es_open st |}.

Definition of_event (e : UseSSE.Event) : Event :=
  match e with
  | UseSSE.Open => Open
  | UseSSE.Message UseSSE.NotJson => Message None
  | UseSSE.Message (UseSSE.Payload p) => Message (Some (encode p))
  | UseSSE.Failure => Failure
  end.

End UseSSEJson.

(** ** components/dashboard/ActiveJobs.tsx *)
Module ActiveJobs.

Definition isActiveJob (j : Job) : bool :=
  str_eq (status_name (job_status j)) "running"
  || str_eq (status_name (job_status j)) "pending".

Definition isRecentJob (j : Job) : bool :=
  negb (str_eq (status_name (job_status j)) "running")
  && negb (str_eq (status_name (job_status j)) "pending").

Section Sorting.

(** [new Date(s).getTime()], for the timestamps the server sends. *)
Variable getTime : string -> Z.

(** [.sort((a, b) => time(b) - time(a))]: newest first; the sort is
    stable, so jobs of equal age keep their order. *)
Fixpoint insert_newest (x : Job) (l : list Job) : list Job :=
  match l with
  | [] => [x]
  | y :: r =>
      if getTime (job_created_at y) - getTime (job_created_at x) <=? 0
      then x :: y :: r
      else y :: insert_newest x r
  end.

Definition sort_newest (l : list Job) : list Job := foldr insert_newest [] l.

(** [newer a b]: [a] was created no earlier than [b]. *)
Definition newer (a b : Job) : Prop :=
  getTime (job_created_at b) <= getTime (job_created_at a).

(** [[...active, ...recent]]. *)
Definition arrange (allJobs : list Job) : list Job :=
  sort_newest (List.filter isActiveJob allJobs)
  ++ take 3 (sort_newest (List.filter isRecentJob allJobs)).

(** The loop over the projects: the jobs of each project in turn, a
    project whose request fails being skipped. [getJobs id] is the
    outcome of [api.getJobs(id)], [None] when it rejects. *)
Definition collect (projectList : list Project)
    (getJobs : Z -> option (list Job)) : list Job :=
  flat_map (fun p => default [] (getJobs (prj_id p))) projectList.

Record State := {
  jobs : list Job;
  projects : list Project;
  loading : bool
}.

Definition initial : State :=
  {| jobs := []; projects := []; loading := true |}.

(** The effect: [Promise.all([api.getProjects(), api.getOverview()])],
    then the loop, then [setJobs]; [finally] ends the loading. [None]
    stands for a rejected request; the overview's value is not used. *)
Definition load (projectsResult : option (list Project))
    (overviewResolved : bool) (getJobs : Z -> option (list Job)) : State :=
  match projectsResult, overviewResolved with
  | Some projectList, true =>
      {| jobs := arrange (collect projectList getJobs);
         projects := projectList; loading := false |}
  | _, _ => {| jobs := jobs initial; projects := projects initial;
               loading := false |}
  end.

End Sorting.

(** [projects.find((p) => p.id === projectId)?.name || `Project #${projectId}`] *)
Definition getProjectName (projects : list Project) (projectId : Z) : string :=
  let fallback := "Project #" +:+ pretty projectId in
  match List.find (fun p => prj_id p =? projectId) projects with
  | Some p => if str_eq (prj_name p) EmptyString then fallback else prj_name p
  | None => fallback
  end.

End ActiveJobs.

(** ** app/projects/[id]/new-job/page.tsx *)
Module NewJobPage.

(** [s.split(sep)] for a separator of one character. *)
Fixpoint split_on (sep : Ascii.ascii) (s : string) : list string :=
  match s with
  | EmptyString => [EmptyString]
  | String c r =>
      if Ascii.eqb c sep then EmptyString :: split_on sep r
      else match split_on sep r with
           | h :: t => String c h :: t
           | [] => [String c EmptyString]
           end
  end.

Definition newline : Ascii.ascii := Ascii.ascii_of_nat 10.

(** [toggleStage]: a copy of the set with [key] removed if it was there,
    added if not. *)
Definition toggleStage (key : string) (prev : gset string) : gset string :=
  if decide (key ∈ prev) then prev ∖ {[key]} else prev ∪ {[key]}.

Record State := {
  submitting : bool;
  error : option Shown;
  pushed : option (option Json)   (* [router.push(`/jobs/${id}`)] *)
}.

Section Submit.

(** [String.prototype.trim]. *)
Variable trim : string -> string.

Definition urlList (urls : string) : list string :=
  List.filter (fun u => negb (str_eq u EmptyString))
              (map trim (split_on newline urls)).

(** [{ urls: urlList, config: quickStart ? {} : undefined }], as
    [JSON.stringify] sees it. *)
Definition jobData (urlList : list string) (quickStart : bool) : Json :=
  JObj (("urls", JArr (map JStr urlList))
        :: if quickStart then [("config", JObj [])] else []).

Definition handleSubmit (srv : Api.Server) (projectId : Z) (urls : string)
    (quickStart : bool) (st : State) : State :=
  match urlList urls with
  | [] => {| submitting := submitting st;
             error := Some (Text "Please enter at least one URL.");
             pushed := pushed st |}
  | _ :: _ =>
      match Api.call "createJob" srv
              [Api.ANum projectId; Api.AJson (jobData (urlList urls) quickStart)]
      with
      | Api.Async (Api.Resolved (Api.VJson JNull)) =>
          {| submitting := false;
             error := Some (Text "Cannot read properties of null (reading 'id')");
             pushed := pushed st |}
      | Api.Async (Api.Resolved (Api.VJson (JObj fields))) =>
          {| submitting := false; error := None;
             pushed := Some (Api.assoc "id" fields) |}
      | Api.Async (Api.Resolved _) | Api.Sync _ =>
          {| submitting := false; error := None; pushed := Some None |}
      | Api.Async (Api.Rejected e) =>
          {| submitting := false; error := Some (message_of e);
             pushed := pushed st |}
      end
  end.

End Submit.

End NewJobPage.

(** ** app/jobs/[id]/results/page.tsx *)
Module JobResultsPage.

Record State := {
  datasetCard : option string;
  selectedExport : option Z
}.

Definition handleViewCard (srv : Api.Server) (exportId : Z) (st : State)
    : State :=
  if match selectedExport st with
     | Some n => n =? exportId
     | None => false
     end
  then {| datasetCard := None; selectedExport := None |}
  else
    match Api.call "getDatasetCard" srv [Api.ANum exportId] with
    | Api.Async (Api.Resolved (Api.VText card)) =>
        {| datasetCard := Some card; selectedExport := Some exportId |}
    | Api.Sync card =>
        {| datasetCard := Some card; selectedExport := Some exportId |}
    | _ =>
        {| datasetCard := Some "Failed to load dataset card.";
           selectedExport := Some exportId |}
    end.

End JobResultsPage.

(** ** The job comparison page *)
Module JobComparePage.

(** [toggleJob]: deselect a selected job; select another one only while
    fewer than ten are selected. *)
Definition toggleJob (jobId : Z) (prev : gset Z) : gset Z :=
  if decide (jobId ∈ prev) then prev ∖ {[jobId]}
  else if decide (size prev < 10)%nat then prev ∪ {[jobId]}
  else prev.

(** The Compare button: [disabled={selectedIds.size < 2 || comparing}]. *)
Definition compareDisabled (selectedIds : gset Z) (comparing : bool) : bool :=
  bool_decide (size selectedIds < 2)%nat || comparing.

(** A JavaScript number that may be [-Infinity]. *)
Inductive Num := NegInfinity | Finite (q : Q).

(** [Math.max(...values)]: [-Infinity] for no values. *)
Fixpoint math_max (values : list Q) : Num :=
  match values with
  | [] => NegInfinity
  | x :: r =>
      match math_max r with
      | NegInfinity => Finite x
      | Finite m => Finite (if Qle_bool m x then x else m)
      end
  end.

(** [results ? Math.max(...results.map((r) => r.avg_quality_score)) : 0] *)
Definition bestQuality (results : option (list JobComparisonItem)) : Num :=
  match results with
  | Some rs => math_max (map cmp_avg_quality_score rs)
  | None => Finite 0
  end.

Definition bestPassRate (results : option (list JobComparisonItem)) : Num :=
  match results with
  | Some rs => math_max (map cmp_pass_rate rs)
  | None => Finite 0
  end.

(** [x === best && best > 0] *)
Definition is_best (x : Q) (best : Num) : bool :=
  match best with
  | NegInfinity => false
  | Finite b => Qeq_bool x b && negb (Qle_bool b 0)
  end.

Definition isBestQuality (results : option (list JobComparisonItem))
    (item : JobComparisonItem) : bool :=
  is_best (cmp_avg_quality_score item) (bestQuality results).

Definition isBestPass (results : option (list JobComparisonItem))
    (item : JobComparisonItem) : bool :=
  is_best (cmp_pass_rate item) (bestPassRate results).

End JobComparePage.

(** * Sample data *)
Module Samples.
Import Core.

Definition a_job (st : JobStatus) : Job :=
  {| job_id := 7; job_project_id := 1; job_status := st;
     job_stage := None;
     job_config := {| urls := ["https://example.com/a"]; scraping := None;
                      processing := None; generation := None;
                      quality := None; export := None |};
     job_progress := 0%Q; job_error := None; job_cost_total := 0%Q;
     job_started_at := None; job_completed_at := None;
     job_created_at := "2026-02-21T00:00:00Z" |}.

(** A running job whose record holds the progress [q]. *)
Definition record_at (q : Q) : Job :=
  {| job_id := 7; job_project_id := 1; job_status := running;
     job_stage := Some "spider"; job_config := job_config (a_job running);
     job_progress := q; job_error := None; job_cost_total := 0%Q;
     job_started_at := None; job_completed_at := None;
     job_created_at := "2026-02-21T00:00:00Z" |}.

Definition an_event (st : string) : PipelineProgress :=
  {| pp_stage := "factory"; pp_progress := 60%Q; pp_status := st;
     pp_error := None |}.

Definition event_at (q : Q) (st : string) : PipelineProgress :=
  {| pp_stage := "factory"; pp_progress := q; pp_status := st;
     pp_error := None |}.

(** A payload with the progress value of the planning document's
    sample event, [0.45]. *)
Definition planned_event : PipelineProgress :=
  {| pp_stage := "spider"; pp_progress := (45 # 100)%Q;
     pp_status := "running"; pp_error := None |}.

Definition live : UseSSE.State :=
  {| UseSSE.progress := None; UseSSE.connected := true;
     UseSSE.es_open := true |}.

Definition not_found : Api.Response :=
  {| Api.ok := false; Api.status := 404; Api.statusText := "Not Found";
     Api.text := "detail: Export not found";
     Api.json := Some (JObj [("detail", JStr "Export not found")]) |}.

Definition accepted (body : Json) : Api.Response :=
  {| Api.ok := true; Api.status := 200; Api.statusText := "OK";
     Api.text := "{}"; Api.json := Some body |}.

(** A server that knows one route, the cancellation of job 7. *)
Definition only_cancel_7 : Api.Server :=
  fun url init =>
    match Api.init_method init with
    | Api.POST =>
        if str_eq url "http://localhost:8000/api/jobs/7/cancel"
        then accepted (JObj [("status", JStr "cancelled")])
        else not_found
    | _ => not_found
    end.

Definition items10 : list Item :=
  map (fun n => {| item_id := n; parent_id := None; payload := "doc" |})
      [1; 2; 3; 4; 5; 6; 7; 8; 9; 10].

(** A stage that permanently fails the items numbered up to [n]. *)
Definition fail_upto (n : Z) (items : list Item) (_ : StageConfig) : Outcome :=
  {| survivors := List.filter (fun it => n <? item_id it) items;
     failures :=
       map (fun it => {| f_item := item_id it; f_class := Permanent;
                         f_detail := "malformed input"; f_attempts := 1 |})
           (List.filter (fun it => item_id it <=? n) items);
     fatal := None; stage_cost := 0%Q; attempts := fun _ => 1%nat |}.

Definition spider (n : Z) : Stage :=
  {| stage_name := "spider"; validate := fun _ => true;
     process := fail_upto n |}.

Definition refiner : Stage :=
  {| stage_name := "refiner"; validate := fun _ => true;
     process := fail_upto 0 |}.

(** Abort threshold 50% for every stage. *)
Definition half (_ : string) : StageConfig :=
  {| max_concurrent := 5; rate_interval := 0%Q; retry_attempts := 3;
     abort_threshold := (1 # 2)%Q |}.

(** Twenty points per finished stage. *)
Definition twenty (k : nat) : Q := inject_Z (20 * Z.of_nat (Nat.min k 5)).

Definition never (_ : nat) : bool := false.

Definition uninterrupted (_ : nat) : option nat := None.

(** A request raised during batch [b] of stage [k]. *)
Definition after_batch (k b i : nat) : option nat :=
  if Nat.eqb i k then Some b else None.

Definition before_stage (k i : nat) : bool := Nat.eqb i k.

(** Stage 1 fails 6 of 10 items; stage 1 fails 2 of 10 items; the
    latter with a cancellation pending before stage 2. *)
Definition run_6_of_10 : list Action :=
  run twenty never uninterrupted half [spider 6; refiner] (a_job pending)
    items10.

Definition run_2_of_10 : list Action :=
  run twenty never uninterrupted half [spider 2; refiner] (a_job pending)
    items10.

Definition run_cancelled : list Action :=
  run twenty (before_stage 2) uninterrupted half [spider 2; refiner]
    (a_job pending) items10.

(** The same job with a request raised during the first batch of
    five of stage 1, and with one raised during the second and last
    batch of stage 2, which has eight items. *)
Definition run_interrupted : list Action :=
  run twenty never (after_batch 1 1) half [spider 2; refiner]
    (a_job pending) items10.

Definition run_late : list Action :=
  run twenty never (after_batch 2 2) half [spider 2; refiner]
    (a_job pending) items10.

End Samples.

(** ** More sample data *)
Module MoreSamples.

Definition job_at (id : Z) (st : JobStatus) (created : string) : Job :=
  {| job_id := id; job_project_id := 1; job_status := st;
     job_stage := None; job_config := job_config (Samples.a_job st);
     job_progress := 0%Q; job_error := None; job_cost_total := 0%Q;
     job_started_at := None; job_completed_at := None;
     job_created_at := created |}.

(** A clock that reads the day of the month off [2026-02-DD]. *)
Definition day_of (s : string) : Z :=
  Z.of_nat (Ascii.nat_of_ascii (default Ascii.zero (String.get 8 s))) * 10
  + Z.of_nat (Ascii.nat_of_ascii (default Ascii.zero (String.get 9 s))).

Definition some_jobs : list Job :=
  [ job_at 1 completed "2026-02-01"; job_at 2 running "2026-02-02";
    job_at 3 failed "2026-02-03"; job_at 4 pending "2026-02-04";
    job_at 5 cancelled "2026-02-05"; job_at 6 completed "2026-02-06" ].

Definition a_project (id : Z) (name : string) : Project :=
  {| prj_id := id; prj_name := name; prj_description := None;
     prj_config := None; prj_created_at := "2026-02-01";
     prj_updated_at := "2026-02-01" |}.

Definition some_projects : list Project :=
  [ a_project 1 "Docs"; a_project 2 EmptyString ].

(** The jobs of project 1 load; those of project 2 do not. *)
Definition jobs_of (projectId : Z) : option (list Job) :=
  if projectId =? 1 then Some some_jobs else None.

Definition a_result (id : Z) (quality : Q) : JobComparisonItem :=
  {| cmp_job_id := id; cmp_status := "completed"; cmp_template_type := None;
     cmp_total_examples := 10; cmp_passed_examples := 8;
     cmp_failed_examples := 2; cmp_avg_quality_score := quality;
     cmp_cost_total := 0%Q; cmp_pass_rate := (4 # 5)%Q |}.

Definition some_results : list JobComparisonItem :=
  [ a_result 1 (4 # 5)%Q; a_result 2 (1 # 2)%Q ].

(** A trim that removes nothing, for text areas without spaces. *)
Definition no_trim (s : string) : string := s.

Definition blank_form : NewJobPage.State :=
  {| NewJobPage.submitting := false; NewJobPage.error := None;
     NewJobPage.pushed := None |}.

End MoreSamples.

(** * Properties *)

Section FindIndex.
Context {A : Type} (p : A -> bool).

Lemma findIndex_from_range (l : list A) (i : Z) :
  findIndex_from p i l = -1 \/
  i <= findIndex_from p i l < i + Z.of_nat (length l).
Proof.
  revert i; induction l as [|x r IH]; intros i; simpl; [now left|].
  destruct (p x); [right; lia|].
  destruct (IH (i + 1)) as [->|H]; [now left|right; lia].
Qed.

Lemma findIndex_range (l : list A) :
  findIndex p l = -1 \/ 0 <= findIndex p l < Z.of_nat (length l).
Proof. apply findIndex_from_range. Qed.
End FindIndex.

(** ** Lists delivered with gaps and repetitions *)
Module DeliveryFacts.
Import UseSSE.

Section Delivers.
Context {A : Type}.

Lemma delivers_In (d l : list A) :
  delivers d l -> forall x, In x d -> In x l.
Proof.
  induction 1 as [l|x d l _ IH|x d l _ IH]; intros y Hy.
  - destruct Hy.
  - destruct Hy as [<-|Hy]; [now left|auto].
  - right. auto.
Qed.

Lemma delivers_sorted {B : Type} (R : B -> B -> Prop) (f : A -> B)
    (d l : list A) :
  (forall b, R b b) ->
  delivers d l -> StronglySorted R (map f l) -> StronglySorted R (map f d).
Proof.
  intros Hrefl. induction 1 as [l|x d l H IH|x d l H IH]; intros Hs; simpl.
  - constructor.
  - constructor; [auto|].
    apply List.Forall_forall. intros b Hb.
    apply in_map_iff in Hb as (y & <- & Hy).
    apply (delivers_In _ _ H) in Hy as [<-|Hy]; [apply Hrefl|].
    simpl in Hs. apply StronglySorted_inv in Hs as [_ Hall].
    rewrite List.Forall_forall in Hall. apply Hall, in_map, Hy.
  - simpl in Hs. apply StronglySorted_inv in Hs as [Hs _]. auto.
Qed.
End Delivers.

Lemma held_cons (st : State) (sts : list State) :
  held (st :: sts) = option_list (progress st) ++ held sts.
Proof. unfold held. simpl. destruct (progress st); reflexivity. Qed.

End DeliveryFacts.

(** ** The orchestrator loop *)
Module CoreFacts.
Import Core.

Lemma persisted_appends (l : list StageOutcome) : persisted (map Append l) = [].
Proof. induction l; [reflexivity|assumption]. Qed.

Lemma visited_appends (l : list StageOutcome) : visited (map Append l) = [].
Proof. induction l; [reflexivity|assumption]. Qed.

Lemma invoked_appends (l : list StageOutcome) : invoked (map Append l) = [].
Proof. induction l; [reflexivity|assumption]. Qed.

Lemma persisted_app (a b : list Action) :
  persisted (a ++ b) = persisted a ++ persisted b.
Proof. apply omap_app. Qed.

Lemma visited_app (a b : list Action) : visited (a ++ b) = visited a ++ visited b.
Proof. apply omap_app. Qed.

Lemma invoked_app (a b : list Action) : invoked (a ++ b) = invoked a ++ invoked b.
Proof. apply omap_app. Qed.

Lemma appended_appends (l : list StageOutcome) : appended (map Append l) = l.
Proof. induction l as [|e l IH]; [reflexivity|]. simpl. now rewrite IH. Qed.

Lemma appended_app (a b : list Action) :
  appended (a ++ b) = appended a ++ appended b.
Proof. apply omap_app. Qed.

Create Rewrite HintDb projections.
#[local] Hint Rewrite persisted_app visited_app invoked_app
  persisted_appends visited_appends invoked_appends : projections.

Lemma not_in_appends (a : Action) (l : list StageOutcome) :
  (forall e, a <> Append e) -> ~ In a (map Append l).
Proof.
  intros Ha Hin. apply in_map_iff in Hin as (e & <- & _). by eapply Ha.
Qed.

Section Run.
Variable progress_after : nat -> Q.
Variable cancel_requested : nat -> bool.
Variable cancel_during : nat -> option nat.
Variable config : string -> StageConfig.

Abbreviation run_stages :=
  (Core.run_stages progress_after cancel_requested cancel_during config).
Abbreviation run :=
  (Core.run progress_after cancel_requested cancel_during config).

(** Unfold one round of the loop and split on its five tests. *)
Ltac loop_cases i st items :=
  cbn [Core.run_stages];
  destruct (cancel_requested i) eqn:Hcancel;
  [ | destruct (validate st items) eqn:Hvalid; cbn [negb];
      [ destruct (dispatched_before (config (stage_name st)) items
                    (cancel_during i)) as [sent|] eqn:Hsent;
        [ | destruct (fatal (process st items (config (stage_name st))))
              as [msg|] eqn:Hfatal;
            [ | destruct (exceeds_threshold
                            (process st items (config (stage_name st)))
                            items (config (stage_name st))) eqn:Hexceeds ] ]
      | ] ].

Lemma run_stages_follows (rest : list Stage) :
  forall i job items t,
    follows (Running i) (visited (run_stages i rest job items t)).
Proof.
  induction rest as [|st rest IH]; intros i job items t.
  - simpl. split; [right; constructor|exact I].
  - loop_cases i st items; simpl; autorewrite with projections; simpl.
    + split; [right; constructor|exact I].
    + split; [right; constructor|exact I].
    + split; [right; constructor|exact I].
    + split; [right; constructor|exact I].
    + destruct rest as [|st' rest'].
      * simpl. split; [now left|]. split; [right; constructor|exact I].
      * split; [right; constructor|]. apply IH.
    + split; [right; constructor|exact I].
Qed.

Lemma run_stages_consistent (rest : list Stage) :
  forall i job items t a,
    In a (run_stages i rest job items t) ->
    match a with
    | Persist s j => job_status j = status_of s
    | _ => True
    end.
Proof.
  induction rest as [|st rest IH]; intros i job items t a.
  - simpl. intros [<-|[]]. reflexivity.
  - loop_cases i st items; simpl; rewrite ?in_app_iff; simpl;
      intros H; decompose [or] H; clear H; subst; try done;
      try (match goal with
           | H : In _ (map Append _) |- _ =>
               apply in_map_iff in H as (e & <- & _); exact I
           end).
    + by destruct rest.
    + by eapply IH.
Qed.

Lemma run_stages_indices (rest : list Stage) :
  forall i job items t a,
    In a (run_stages i rest job items t) ->
    match a with
    | Invoke k _ _ _ | Interrupt k _ _ _ | CheckCancel k _ => (i <= k)%nat
    | _ => True
    end.
Proof.
  induction rest as [|st rest IH]; intros i job items t a.
  - simpl. intros [<-|[]]. exact I.
  - loop_cases i st items; simpl; rewrite ?in_app_iff; simpl;
      intros H; decompose [or] H; clear H; subst; try done;
      try (match goal with
           | H : In _ (map Append _) |- _ =>
               apply in_map_iff in H as (e & <- & _); exact I
           end).
    match goal with H : In _ (run_stages _ _ _ _ _) |- _ =>
      apply IH in H; destruct a; try exact I; lia end.
Qed.

Lemma run_stages_ends (rest : list Stage) :
  forall i job items t, is_Some (last (persisted (run_stages i rest job items t))).
Proof.
  induction rest as [|st rest IH]; intros i job items t.
  - simpl. eauto.
  - loop_cases i st items; simpl; autorewrite with projections; simpl;
      eauto.
    rewrite last_cons. edestruct IH as [j Hj]. rewrite Hj. eauto.
Qed.

(** Split the membership of an action in one unfolded round. *)
Ltac members H :=
  simpl in H; rewrite ?in_app_iff in H; simpl in H;
  decompose [or] H; clear H; try discriminate; try contradiction;
  try (match goal with
       | H' : In _ (map Append _) |- _ =>
           apply in_map_iff in H' as (? & ? & _); discriminate
       end).

(** View a continuing round as its own actions followed by the rest
    of the loop. *)
Ltac regroup :=
  match goal with
  | |- context [?c :: ?inv :: ?apps ++ ?w :: run_stages ?i ?r ?j ?its ?t] =>
      replace (c :: inv :: apps ++ w :: run_stages i r j its t)
        with ((c :: inv :: apps ++ [w]) ++ run_stages i r j its t)
        by (simpl; now rewrite <- app_assoc)
  end.

Lemma final_after_prefix (job0 job' : Job) (pre rec : list Action) :
  is_Some (last (persisted rec)) ->
  final_job job0 (pre ++ rec) = final_job job' rec.
Proof.
  intros [j Hj]. unfold final_job.
  rewrite persisted_app, last_app, Hj. reflexivity.
Qed.

Lemma abort_in_run_stages (rest : list Stage) :
  forall i job items t k st its out,
    In (Invoke k st its out) (run_stages i rest job items t) ->
    exceeds_threshold out its (config (stage_name st)) = true ->
    let tr := run_stages i rest job items t in
    job_status (final_job job tr) = failed
    /\ job_error (final_job job tr)
       = Some (default (abort_message st) (fatal out))
    /\ (forall n st' its' out',
           In (Invoke n st' its' out') tr -> (n <= k)%nat).
Proof.
  induction rest as [|st0 rest IH]; intros i job items t k st its out Hin Hex.
  - simpl in Hin. destruct Hin as [?|[]]. discriminate.
  - revert Hin. loop_cases i st0 items; intros Hin; members Hin.
    + match goal with H : Invoke _ _ _ _ = _ |- _ =>
        injection H as <- <- <- <- end.
      cbn zeta. unfold final_job. simpl. autorewrite with projections.
      simpl. rewrite Hfatal. repeat split.
      intros n st' its' out' Hn. members Hn.
      match goal with H : Invoke _ _ _ _ = _ |- _ =>
        injection H as <- _ _ _ end. lia.
    + match goal with H : Invoke _ _ _ _ = _ |- _ =>
        injection H as <- <- <- <- end.
      cbn zeta. unfold final_job. simpl. autorewrite with projections.
      simpl. rewrite Hfatal. repeat split.
      intros n st' its' out' Hn. members Hn.
      match goal with H : Invoke _ _ _ _ = _ |- _ =>
        injection H as <- _ _ _ end. lia.
    + match goal with H : Invoke _ _ _ _ = _ |- _ =>
        injection H as <- <- <- <- end. congruence.
    + match goal with H : In _ (run_stages _ _ _ _ _) |- _ =>
        pose proof (run_stages_indices _ _ _ _ _ _ H) as Hge;
        destruct (IH _ _ _ _ _ _ _ _ H Hex) as (Hs & He & Hn) end.
      cbn zeta.
      regroup.
      erewrite final_after_prefix by apply run_stages_ends.
      split; [exact Hs|]. split; [exact He|].
      intros n st' its' out' Hin'. apply in_app_iff in Hin' as [Hin'|Hin'].
      * members Hin'.
        match goal with H : Invoke _ _ _ _ = _ |- _ =>
          injection H as <- _ _ _ end. simpl in Hge. lia.
      * eauto.
Qed.


(** A request found at a check of stage [k] ends the loop there. *)
Lemma found_in_run_stages (rest : list Stage) :
  forall i job items t k,
    found_pending k (run_stages i rest job items t) ->
    let tr := run_stages i rest job items t in
    job_status (final_job job tr) = cancelled
    /\ job_error (final_job job tr) = job_error job
    /\ (forall n st' its' out',
           In (Invoke n st' its' out') tr -> (n < k)%nat)
    /\ (forall n st' its' out',
           In (Interrupt n st' its' out') tr -> n = k).
Proof.
  induction rest as [|st0 rest IH]; intros i job items t k Hin.
  - destruct Hin as [Hin|(st & sent & out & Hin)];
      simpl in Hin; destruct Hin as [?|[]]; discriminate.
  - assert (Hidx : (i <= k)%nat).
    { destruct Hin as [Hin|(st & sent & out & Hin)];
        apply run_stages_indices in Hin; exact Hin. }
    revert Hin. loop_cases i st0 items; intros Hin.
    + cbn zeta. unfold final_job. simpl. repeat split.
      * intros n st' its' out' Hn. members Hn.
      * intros n st' its' out' Hn. members Hn.
    + cbn zeta. unfold final_job. simpl. autorewrite with projections.
      simpl.
      assert (Hk : k = i).
      { destruct Hin as [Hin|(st & sent' & out & Hin)]; members Hin.
        match goal with H : Interrupt _ _ _ _ = _ |- _ =>
          injection H as <- _ _ _ end. reflexivity. }
      subst k. repeat split.
      * intros n st' its' out' Hn. members Hn.
      * intros n st' its' out' Hn. members Hn.
        match goal with H : Interrupt _ _ _ _ = _ |- _ =>
          injection H as <- _ _ _ end. reflexivity.
    + exfalso. destruct Hin as [Hin|(st & sent' & out & Hin)]; members Hin.
    + exfalso. destruct Hin as [Hin|(st & sent' & out & Hin)]; members Hin.
    + assert (Hrec : found_pending k
                (run_stages (S i) rest
                   (save_job_fields job running
                      (snd match rest with
                           | [] => (Running i, job_stage job)
                           | st' :: _ => (Running (S i), Some (stage_name st'))
                           end)
                      (progress_after i) (job_error job)
                      (job_cost_total job
                       + stage_cost (process st0 items (config (stage_name st0))))%Q)
                   (survivors (process st0 items (config (stage_name st0))))
                   (t + 1))).
      { destruct Hin as [Hin|(st & sent' & out & Hin)]; members Hin.
        - now left.
        - right. eauto. }
      assert (Hgt : (S i <= k)%nat).
      { destruct Hrec as [H|(st & sent' & out & H)];
          apply run_stages_indices in H; exact H. }
      destruct (IH _ _ _ _ _ Hrec) as (Hs & He & Hn & Hm).
      cbn zeta. regroup.
      erewrite final_after_prefix by apply run_stages_ends.
      split; [exact Hs|]. split; [exact He|]. split.
      * intros n st' its' out' Hin'.
        apply in_app_iff in Hin' as [Hin'|Hin'].
        -- members Hin'.
           match goal with H : Invoke _ _ _ _ = _ |- _ =>
             injection H as <- _ _ _ end. lia.
        -- eauto.
      * intros n st' its' out' Hin'.
        apply in_app_iff in Hin' as [Hin'|Hin'].
        -- members Hin'.
        -- eauto.
    + exfalso. destruct Hin as [Hin|(st & sent' & out & Hin)]; members Hin.
Qed.

(** A request pending at the boundary of a stage still to come never
    lets the loop run to the end. *)
Lemma request_in_run_stages (rest : list Stage) :
  forall i job items t k,
    (i <= k < i + length rest)%nat ->
    cancel_requested k = true ->
    let final := final_job job (run_stages i rest job items t) in
    job_status final = cancelled \/ job_status final = failed.
Proof.
  induction rest as [|st rest IH]; intros i job items t k Hk Hreq.
  - simpl in Hk. lia.
  - loop_cases i st items; cbn zeta.
    + left. reflexivity.
    + left. unfold final_job. simpl. autorewrite with projections.
      reflexivity.
    + right. unfold final_job. simpl. autorewrite with projections.
      reflexivity.
    + right. unfold final_job. simpl. autorewrite with projections.
      reflexivity.
    + regroup. erewrite final_after_prefix by apply run_stages_ends.
      apply (IH _ _ _ _ k); [|exact Hreq].
      assert (k <> i) by congruence. simpl in Hk. lia.
    + right. reflexivity.
Qed.

(** The loop ends [cancelled] only where it found a request. *)
Lemma cancelled_in_run_stages (rest : list Stage) :
  forall i job items t,
    job_status (final_job job (run_stages i rest job items t)) = cancelled ->
    exists k, found_pending k (run_stages i rest job items t).
Proof.
  induction rest as [|st rest IH]; intros i job items t.
  - discriminate.
  - loop_cases i st items.
    + intros _. exists i. left. now left.
    + intros _. exists i. right.
      exists st, sent, (process st sent (config (stage_name st))).
      right. now left.
    + unfold final_job. simpl. autorewrite with projections. discriminate.
    + unfold final_job. simpl. autorewrite with projections. discriminate.
    + regroup. erewrite final_after_prefix by apply run_stages_ends.
      intros Hc. apply IH in Hc as (k & [Hk|(st' & sent' & out' & Hk)]);
        exists k; [left|right; exists st', sent', out'];
        apply in_app_iff; now right.
    + discriminate.
Qed.

(** An interrupted stage is the end of the loop: after it come the
    outcomes of the items it had dispatched, and the [Cancelled]
    write. *)
Lemma interrupt_ends_run_stages (rest : list Stage) :
  forall i job items t k st its out,
    In (Interrupt k st its out) (run_stages i rest job items t) ->
    out = process st its (config (stage_name st))
    /\ exists pre t' j,
         run_stages i rest job items t
         = pre ++ Interrupt k st its out
               :: map Append
                    (outcome_entries (job_id job) (stage_name st) out t')
               ++ [Persist Cancelled j].
Proof.
  induction rest as [|st0 rest IH]; intros i job items t k st its out Hin.
  - simpl in Hin. destruct Hin as [?|[]]. discriminate.
  - revert Hin. loop_cases i st0 items; intros Hin; members Hin.
    + match goal with H : Interrupt _ _ _ _ = _ |- _ =>
        injection H as <- <- <- <- end.
      split; [reflexivity|].
      eexists [CheckCancel i false], t, _. reflexivity.
    + match goal with H : In _ (run_stages _ _ _ _ _) |- _ =>
        destruct (IH _ _ _ _ _ _ _ _ H) as (Ho & pre & t' & j & Heq) end.
      split; [exact Ho|]. cbn zeta. regroup. rewrite Heq.
      eexists (_ ++ pre), t', j. now rewrite <- app_assoc.
Qed.

Lemma completed_invokes_all (rest : list Stage) :
  forall i job items t,
    job_status (final_job job (run_stages i rest job items t)) = completed ->
    invoked (run_stages i rest job items t) = seq i (length rest).
Proof.
  induction rest as [|st rest IH]; intros i job items t; [reflexivity|].
  loop_cases i st items; try (unfold final_job; simpl;
    autorewrite with projections; simpl; discriminate).
  regroup. erewrite final_after_prefix by apply run_stages_ends.
  intros Hdone. apply IH in Hdone.
  autorewrite with projections. simpl. autorewrite with projections.
  simpl. now rewrite Hdone.
Qed.



End Run.
Import Samples.

Example two_of_ten_continues :
  invoked run_2_of_10 = [1; 2]%nat
  /\ job_status (final_job (a_job pending) run_2_of_10) = completed
  /\ summary 7 "spider" (appended run_2_of_10) = (8, 2, 0)%nat.
Proof. vm_compute. repeat split. Qed.




End CoreFacts.

(** ** The ledger *)
Module LedgerFacts.
Import Core.

Lemma load_record (job : Z) (stage : string) (e : StageOutcome) (l : Ledger) :
  load job stage (record e l) =
  if in_scope job stage e then <[e_item e := e]> (load job stage l)
  else load job stage l.
Proof. unfold load, record. by rewrite foldl_snoc. Qed.

Lemma latest_record (e : StageOutcome) (l : Ledger) :
  latest (e_job e) (e_stage e) (e_item e) (record e l) = Some e.
Proof.
  unfold latest. rewrite load_record. unfold in_scope.
  rewrite Z.eqb_refl. unfold str_eq. rewrite String.eqb_refl. simpl.
  apply lookup_insert_eq.
Qed.

(** C8: appending the same outcome a second time changes neither the
    latest outcome of any item nor the summary, and an append leaves
    every entry already in the ledger where and as it was. *)
Theorem ledger_append_idempotent (l : Ledger) (e : StageOutcome)
    (job : Z) (stage : string) (item : Z) :
  latest job stage item (record e (record e l))
    = latest job stage item (record e l)
  /\ load job stage (record e (record e l)) = load job stage (record e l)
  /\ summary job stage (record e (record e l))
     = summary job stage (record e l)
  /\ latest (e_job e) (e_stage e) (e_item e) (record e (record e l)) = Some e
  /\ (forall n x, l !! n = Some x -> record e l !! n = Some x)
  /\ length (record e l) = S (length l).
Proof.
  assert (Hload : load job stage (record e (record e l))
                  = load job stage (record e l)).
  { rewrite (load_record job stage e (record e l)).
    destruct (in_scope job stage e) eqn:Hin; [|reflexivity].
    rewrite load_record, Hin. apply insert_insert_eq. }
  repeat split.
  - unfold latest. by rewrite Hload.
  - exact Hload.
  - unfold summary. by rewrite Hload.
  - apply latest_record.
  - intros n x Hn. unfold record. by apply lookup_app_l_Some.
  - unfold record. rewrite length_app. simpl. lia.
Qed.

End LedgerFacts.

(** ** The API client *)
Module ApiFacts.
Import Api.

Lemma str_eq_true (a b : string) : str_eq a b = true <-> a = b.
Proof. apply String.eqb_eq. Qed.

(** A request answered with a status that is not ok is rejected, and
    with the [detail] of the body when there is one. *)
Lemma request_not_ok (res : Response) (path : string) (options : RequestInit) :
  ok res = false ->
  exists e, request (fun _ _ => res) path options = Rejected e /\
    forall fields d, json res = Some (JObj fields) ->
      assoc "detail" fields = Some (JStr d) -> d <> EmptyString -> e = Error d.
Proof.
  intros Hok. unfold request. rewrite Hok. simpl.
  destruct (json res) as [[| | | | |fields]|] eqn:Hj;
    eexists; (split; [reflexivity|]); intros fields' d Hf Hd Hne;
    try discriminate.
  injection Hf as <-. rewrite Hd. unfold error_of_detail. simpl.
  destruct (str_eq d EmptyString) eqn:Hd0; [|reflexivity].
  apply str_eq_true in Hd0. contradiction.
Qed.

(** Every member but the card and the download URL goes through
    [request]. *)
Lemma member_via_request (name : string) (m : Member) :
  member name api = Some m ->
  name <> "getDatasetCard" -> name <> "getDownloadUrl" ->
  exists path options, m = via_request path options.
Proof.
  unfold api. cbn [member]. intros Hm Hcard Hurl.
  repeat match type of Hm with
  | (if str_eq ?k name then _ else _) = _ =>
      destruct (str_eq k name) eqn:E;
      [ try (injection Hm as <-; eexists _, _; reflexivity);
        apply str_eq_true in E; congruence
      | clear E ]
  end.
  discriminate.
Qed.

(** C10: the dataset-card call resolves with the body text whatever the
    response status; every other member that makes a request rejects
    when the status is not ok, with the body's detail message when it
    has one; so a failing card request hands the error body back as the
    card. The download-URL member makes no request. *)
Theorem getDatasetCard_resolves_on_error :
  (forall (srv : Server) (exportId : Z),
      getDatasetCard srv exportId =
      Async (Resolved (VText (text
        (srv (API_BASE +:+ "/api/exports/" +:+ pretty exportId +:+ "/card")
             no_options)))))
  /\ (forall (res : Response) (name : string) (m : Member) (args : list Arg),
         member name api = Some m ->
         name <> "getDatasetCard" -> name <> "getDownloadUrl" ->
         ok res = false ->
         exists e, m (fun _ _ => res) args = Async (Rejected e) /\
           forall fields d, json res = Some (JObj fields) ->
             assoc "detail" fields = Some (JStr d) -> d <> EmptyString -> e = Error d)
  /\ (forall (srv : Server) (args : list Arg),
         exists url, call "getDownloadUrl" srv args = Sync url)
  /\ (exists (res : Response) (exportId : Z),
         ok res = false /\
         getDatasetCard (fun _ _ => res) exportId =
         Async (Resolved (VText (text res)))).
Proof.
  split; [reflexivity|]. split; [|split].
  - intros res name m args Hm Hcard Hurl Hok.
    destruct (member_via_request name m Hm Hcard Hurl) as (path & opts & ->).
    unfold via_request.
    destruct (request_not_ok res (path args) (opts args) Hok) as (e & He & Hd).
    exists e. rewrite He. split; [reflexivity|exact Hd].
  - intros srv args. eexists. reflexivity.
  - exists Samples.not_found, 7. split; reflexivity.
Qed.

Lemma getDatasetCard_resolves_on_error_witness :
  ok Samples.not_found = false
  /\ (exists e, cancelJob (fun _ _ => Samples.not_found) 7
                = Async (Rejected e) /\ e = Error "Export not found")
  /\ getDatasetCard (fun _ _ => Samples.not_found) 7
     = Async (Resolved (VText (text Samples.not_found))).
Proof.
  destruct getDatasetCard_resolves_on_error as (Hcard & Hother & _ & _).
  split; [reflexivity|]. split; [|apply Hcard].
  destruct (Hother Samples.not_found "cancelJob"
              (via_request
                 (fun a => "/api/jobs/" +:+ show (a !! 0%nat) +:+ "/cancel")
                 (fun _ => with_method POST None))
              [ANum 7] eq_refl) as (e & He & Hd).
  - discriminate.
  - discriminate.
  - reflexivity.
  - exists e. split; [exact He|].
    apply (Hd [("detail", JStr "Export not found")]); [reflexivity..|discriminate].
Defined.

End ApiFacts.

(** ** The job detail page and the progress hook *)
Module PageFacts.
Import UseSSE JobDetailPage Samples.

(** C2: the Retry button's handler calls [api.retryJob], which the
    API client does not define (nor does its later revision): the call
    throws, the empty [catch] swallows it, and no job is created or
    navigated to, whatever the server would answer. *)
Theorem handleRetry_does_nothing :
  Api.member "retryJob" Api.api = None
  /\ ~ In "retryJob" Api.api_names_extended
  /\ (forall (srv : Api.Server) (jobId : Z), handleRetry srv jobId = Nothing)
  /\ (forall (srv : Api.Server) (jobId : Z), exists msg,
         Api.call "retryJob" srv [Api.ANum jobId]
         = Api.Async (Api.Rejected (Api.TypeError msg))).
Proof.
  split; [reflexivity|]. split; [|split].
  - intros H. vm_compute in H. intuition discriminate.
  - reflexivity.
  - intros srv jobId. eexists. reflexivity.
Qed.

(** The Retry button is shown for the failing input, a failed job. *)
Example retry_offered_for_failed_job :
  showRetry (a_job failed) = true /\
  handleRetry (fun _ _ => accepted (JObj [("id", JNum 8%Q)]))
              (job_id (a_job failed)) = Nothing.
Proof. split; reflexivity. Qed.

(** C3 as stated fails: an event whose status is [cancelled] is stored
    and the stream stays open. *)
Lemma cancelled_event_leaves_stream_open :
  ~ (forall (st : State) (data : PipelineProgress),
        es_open st = true ->
        spec_terminal_status (pp_status data) = true ->
        es_open (dispatch st (Message (Payload data))) = false).
Proof.
  intros H. specialize (H live (an_event "cancelled") eq_refl eq_refl).
  discriminate H.
Qed.

Lemma closed_stream_is_silent (st : State) (evs : list Event) :
  es_open st = false -> Forall (fun st' => st' = st) (states st evs).
Proof.
  intros Hc. induction evs as [|e r IH]; simpl; [constructor|].
  unfold dispatch. rewrite Hc. constructor; [reflexivity|exact IH].
Qed.

(** C3, amended: on an open stream, an event is stored as the current
    progress, and the stream is closed by it exactly when its status is
    [completed] or [failed], the terminal statuses of the
    [PipelineProgress] type; after that no event changes the hook. An
    event with any other status, [cancelled] included, leaves it open. *)
Theorem terminal_event_closes_stream (st : State) (data : PipelineProgress)
    (later : list Event) :
  es_open st = true ->
  let st' := dispatch st (Message (Payload data)) in
  progress st' = Some data
  /\ es_open st' =
       negb (str_eq (pp_status data) "completed"
             || str_eq (pp_status data) "failed")
  /\ (es_open st' = false ->
        connected st' = false /\
        declared_progress_status (pp_status data) = true /\
        Forall (fun s => s = st') (states st' later)).
Proof.
  intros Hopen st'. subst st'. unfold dispatch. rewrite Hopen. simpl.
  unfold declared_progress_status.
  destruct (str_eq (pp_status data) "completed") eqn:Hc;
    destruct (str_eq (pp_status data) "failed") eqn:Hf; simpl;
    (split; [reflexivity|]); (split; [now rewrite ?Hopen|]);
    rewrite ?Hopen; try discriminate; intros _;
    (split; [reflexivity|]); (split; [now rewrite ?orb_true_r|]);
    now apply closed_stream_is_silent.
Qed.

Lemma terminal_event_closes_stream_witness :
  es_open live = true /\
  progress (dispatch live (Message (Payload (an_event "failed"))))
    = Some (an_event "failed") /\
  es_open (dispatch live (Message (Payload (an_event "failed")))) = false.
Proof.
  split; [reflexivity|].
  destruct (terminal_event_closes_stream live (an_event "failed") []
              eq_refl) as (Hp & Ho & _).
  split; [exact Hp|exact Ho].
Defined.

(** A job that is no longer running gives the hook no job id, and the
    effect's cleanup closes the stream of the previous render. *)
Lemma no_stream_unless_running (j : Job) (jobId : Z) (st : State) :
  job_status j <> running ->
  sseJobId (Some j) jobId = None /\
  es_open (connect (sseJobId (Some j) jobId) (cleanup st)) = false.
Proof.
  intros Hs. unfold sseJobId.
  destruct (job_status j); try contradiction; split; reflexivity.
Qed.

End PageFacts.

Module ProgressFacts.
Import UseSSE StreamEvents JobDetailPage Samples.

Lemma held_closed (st : State) (evs : list Event) :
  es_open st = false ->
  held (states st evs)
  = match progress st with
    | Some p => replicate (length evs) p
    | None => []
    end.
Proof.
  intros Hc. induction evs as [|e r IH].
  - simpl. now destruct (progress st).
  - assert (Hd : dispatch st e = st) by (unfold dispatch; now rewrite Hc).
    cbn [states length]. rewrite Hd, DeliveryFacts.held_cons, IH.
    now destruct (progress st).
Qed.

(** What an open hook holds over time: the payload it started with,
    for a while, and then each payload of the live events, each for one
    state or more. *)
Lemma held_open (evs : list Event) :
  forall st, es_open st = true ->
    exists n counts,
      length counts = length (payloads (live_prefix evs))
      /\ Forall (lt 0) counts
      /\ held (states st evs)
         = match progress st with
           | Some p => replicate n p
           | None => []
           end ++ repeated counts (payloads (live_prefix evs)).
Proof.
  induction evs as [|e r IH]; intros st Ho.
  - exists 0%nat, []. simpl. split; [reflexivity|]. split; [constructor|].
    now destruct (progress st).
  - cbn [states]. rewrite DeliveryFacts.held_cons.
    destruct e as [|[|p]|].
    + assert (Hd : dispatch st Open = onopen st)
        by (unfold dispatch; now rewrite Ho).
      rewrite Hd. destruct (IH (onopen st) Ho) as (n & counts & Hl & Hp & Hh).
      exists (S n), counts. rewrite Hh.
      split; [exact Hl|]. split; [exact Hp|].
      simpl. now destruct (progress st).
    + assert (Hd : dispatch st (Message NotJson) = st)
        by (unfold dispatch; now rewrite Ho).
      rewrite Hd. destruct (IH st Ho) as (n & counts & Hl & Hp & Hh).
      exists (S n), counts. rewrite Hh.
      split; [exact Hl|]. split; [exact Hp|].
      simpl. now destruct (progress st).
    + assert (Hd : dispatch st (Message (Payload p))
                   = onmessage (Payload p) st)
        by (unfold dispatch; now rewrite Ho).
      rewrite Hd. unfold onmessage. cbn [live_prefix closes].
      destruct (str_eq (pp_status p) "completed"
                || str_eq (pp_status p) "failed") eqn:Hend.
      * rewrite held_closed by reflexivity.
        exists 0%nat, [S (length r)].
        split; [reflexivity|]. split; [constructor; [lia|constructor]|].
        unfold repeated. simpl. rewrite app_nil_r.
        now destruct (progress st).
      * match goal with |- context [states ?s r] =>
          destruct (IH s Ho) as (n & counts & Hl & Hp & Hh) end.
        rewrite Hh.
        exists 0%nat, (S n :: counts).
        split; [simpl; now rewrite Hl|].
        split; [constructor; [lia|exact Hp]|].
        unfold repeated. simpl. now destruct (progress st).
    + assert (Hd : dispatch st Failure = close st)
        by (unfold dispatch; now rewrite Ho).
      rewrite Hd. rewrite held_closed by reflexivity.
      exists (S (length r)), [].
      split; [reflexivity|]. split; [constructor|].
      unfold repeated. simpl. rewrite app_nil_r.
      now destruct (progress st).
Qed.

Section Repeated.
Context {A : Type}.

Lemma delivers_replicate (x : A) (c : nat) (d l : list A) :
  delivers d (x :: l) -> delivers (replicate c x ++ d) (x :: l).
Proof.
  intros H. induction c as [|c IH]; [exact H|].
  simpl. now apply delivers_again.
Qed.

Lemma delivers_skip_app (pre d l : list A) :
  delivers d l -> delivers d (pre ++ l).
Proof.
  intros H. induction pre as [|x pre IH]; [exact H|].
  simpl. now apply delivers_skip.
Qed.

(** A list and the same list with repetitions deliver each other. *)
Lemma repeated_delivers (l : list A) :
  forall counts,
    length counts = length l -> Forall (lt 0) counts ->
    delivers (repeated counts l) l
    /\ delivers l (repeated counts l).
Proof.
  induction l as [|x l IH]; intros [|c counts] Hl Hp; try discriminate.
  - split; constructor.
  - injection Hl as Hl. apply Forall_cons in Hp as [Hc Hp].
    destruct (IH counts Hl Hp) as [H1 H2].
    destruct c as [|c]; [lia|]. unfold repeated in *. simpl. split.
    + apply delivers_again, delivers_replicate.
      now apply delivers_skip.
    + apply delivers_again, delivers_skip.
      now apply delivers_skip_app.
Qed.
End Repeated.







End ProgressFacts.

Module PipelineVisualizerFacts.
Import PipelineVisualizer.

Lemma well_shaped_completed_prefix (l : list StageStatus) :
  well_shaped l = true ->
  forall i j : nat, (i < j)%nat -> l !! j = Some SCompleted ->
                    l !! i = Some SCompleted.
Proof.
  induction l as [|s r IH]; intros Hs i j Hij Hj; [done|].
  destruct j as [|j]; [lia|]. simpl in Hj.
  assert (Hpend : forallb is_pending r = true -> False).
  { intros Hp. rewrite forallb_forall in Hp.
    apply list_elem_of_lookup_2, list_elem_of_In, Hp in Hj. discriminate. }
  destruct s; simpl in Hs; try (exfalso; auto; fail).
  destruct i as [|i]; [done|]. simpl. apply (IH Hs i j); [lia|done].
Qed.

Lemma currentIndex_cases (cs : option string) :
  let k := currentIndexOf cs in
  k = -1 \/ k = 0 \/ k = 1 \/ k = 2 \/ k = 3 \/ k = 4.
Proof.
  intros k. subst k. unfold currentIndexOf.
  match goal with |- context [findIndex ?p stages] =>
    destruct (findIndex_range p stages) as [H|H] end; [now left|].
  simpl in H. lia.
Qed.

Example failed_at_factory :
  stageStatuses (Some "factory") "failed"
  = [SCompleted; SCompleted; SFailed; SPending; SPending].
Proof. reflexivity. Qed.

Example unknown_stage_is_all_pending :
  stageStatuses (Some "publisher") "running"
  = [SPending; SPending; SPending; SPending; SPending]
  /\ currentIndexOf (Some "publisher") = -1.
Proof. split; reflexivity. Qed.

(** C9: for every job status and current stage (null, empty and unknown
    names included) the five display statuses read: some [completed],
    then at most one [active] or [failed], then only [pending]; hence a
    [completed] stage is never preceded by a stage that is not. *)
Theorem getStageStatus_shape (currentStage : option string) (jobStatus : string) :
  let l := stageStatuses currentStage jobStatus in
  length l = 5%nat /\
  well_shaped l = true /\
  (forall i j : nat, (i < j)%nat -> l !! j = Some SCompleted ->
                     l !! i = Some SCompleted).
Proof.
  intros l.
  assert (Hshape : length l = 5%nat /\ well_shaped l = true).
  { subst l. unfold stageStatuses, getStageStatus. simpl.
    destruct (str_eq jobStatus "completed"); [done|].
    destruct (str_eq jobStatus "cancelled"); [done|].
    destruct (truthy currentStage); simpl;
      [|destruct (str_eq jobStatus "pending"); done].
    destruct (currentIndex_cases currentStage) as [H|[H|[H|[H|[H|H]]]]];
      rewrite H; destruct (str_eq jobStatus "failed"); done. }
  destruct Hshape as [Hlen Hs]. repeat split; try done.
  by apply well_shaped_completed_prefix.
Qed.

End PipelineVisualizerFacts.

(** * More properties of the dashboard *)

(** ** Stage nodes and connectors *)
Module ConnectorFacts.
Import PipelineVisualizer Connectors.

Lemma currentIndexOf_falsy (cs : option string) :
  truthy cs = false -> currentIndexOf cs = -1.
Proof.
  destruct cs as [c|]; [|reflexivity].
  unfold truthy. intros H. apply negb_false_iff, String.eqb_eq in H.
  subst c. reflexivity.
Qed.

(** The key found at the current index is the current stage. *)
Lemma currentIndexOf_key (c : string) (k : nat) :
  currentIndexOf (Some c) = Z.of_nat k ->
  key <$> stages !! k = Some c.
Proof.
  unfold currentIndexOf, findIndex, stages. cbn [findIndex_from key].
  repeat match goal with
  | |- context [if str_eq ?a c then _ else _] =>
      destruct (str_eq a c) eqn:E;
      [ apply String.eqb_eq in E; subst c; intros Hk;
        assert (Hk' : k = Z.to_nat (Z.of_nat k)) by lia;
        rewrite <- Hk in Hk'; subst k; reflexivity
      | clear E ]
  end.
  lia.
Qed.

Lemma currentIndexOf_of_key (c : string) (k : nat) :
  key <$> stages !! k = Some c -> currentIndexOf (Some c) = Z.of_nat k.
Proof.
  intros H.
  do 5 (destruct k as [|k]; [injection H as <-; reflexivity|]).
  discriminate H.
Qed.

(** X1: unless the job is completed, the connectors do not look at the
    job's status: they are drawn as for a running job, and connector [i]
    then has the status of stage node [i] of that running job. *)
Theorem connectors_are_those_of_a_running_job (i : Z) (cs : option string)
    (js : string) :
  0 <= i ->
  str_eq js "completed" = false ->
  getConnectionStatus i cs js = getConnectionStatus i cs "running"
  /\ as_stage (getConnectionStatus i cs js) = getStageStatus i cs "running".
Proof.
  intros Hi Hjs. unfold getConnectionStatus, getStageStatus. rewrite Hjs.
  change (str_eq "running" "completed") with false.
  change (str_eq "running" "cancelled") with false.
  change (str_eq "running" "failed") with false.
  cbn iota. split; [reflexivity|].
  destruct (truthy cs) eqn:Ht; cbn [negb].
  - destruct (i <? currentIndexOf cs); [reflexivity|].
    destruct (i =? currentIndexOf cs); reflexivity.
  - rewrite (currentIndexOf_falsy cs Ht).
    destruct (i <? -1) eqn:H1; [lia|]. destruct (i =? -1) eqn:H2; [lia|].
    reflexivity.
Qed.

Lemma connectors_are_those_of_a_running_job_witness :
  getConnectionStatus 2 (Some "factory") "failed"
  = getConnectionStatus 2 (Some "factory") "running"
  /\ as_stage (getConnectionStatus 2 (Some "factory") "failed") = SActive.
Proof.
  exact (connectors_are_those_of_a_running_job 2 (Some "factory") "failed"
           ltac:(lia) eq_refl).
Defined.

(** X2: where nodes and connectors disagree. The connector that leaves a
    stage node drawn as failed is drawn active; and for a cancelled job
    every connector before the current stage is drawn completed although
    its stage node is pending. *)
Theorem connectors_disagree_with_nodes (i : Z) (cs : option string) :
  (getStageStatus i cs "failed" = SFailed ->
   getConnectionStatus i cs "failed" = CActive)
  /\ (0 <= i < currentIndexOf cs ->
      getStageStatus i cs "cancelled" = SPending
      /\ getConnectionStatus i cs "cancelled" = CCompleted).
Proof.
  unfold getStageStatus, getConnectionStatus.
  change (str_eq "failed" "completed") with false.
  change (str_eq "failed" "cancelled") with false.
  change (str_eq "failed" "failed") with true.
  change (str_eq "cancelled" "completed") with false.
  change (str_eq "cancelled" "cancelled") with true.
  cbn iota. split.
  - destruct (truthy cs); cbn [negb];
      [|change (str_eq "failed" "pending") with false; discriminate].
    destruct (i <? currentIndexOf cs); [discriminate|].
    destruct (i =? currentIndexOf cs); [reflexivity|discriminate].
  - intros [H0 Hlt]. split; [reflexivity|].
    destruct (i <? currentIndexOf cs) eqn:E; [reflexivity|lia].
Qed.

Lemma connectors_disagree_with_nodes_witness :
  getStageStatus 2 (Some "factory") "failed" = SFailed
  /\ getConnectionStatus 2 (Some "factory") "failed" = CActive
  /\ 0 <= 1 < currentIndexOf (Some "factory")
  /\ getStageStatus 1 (Some "factory") "cancelled" = SPending
  /\ getConnectionStatus 1 (Some "factory") "cancelled" = CCompleted.
Proof.
  destruct (connectors_disagree_with_nodes 2 (Some "factory")) as [Hf _].
  destruct (connectors_disagree_with_nodes 1 (Some "factory")) as [_ Hc].
  assert (Hr : 0 <= 1 < currentIndexOf (Some "factory")) by (vm_compute; split; congruence).
  split; [reflexivity|]. split; [exact (Hf eq_refl)|]. split; [exact Hr|].
  exact (Hc Hr).
Defined.

(** Two elements that pass a filter sit at two positions of the list. *)
Lemma filter_two {A : Type} (f : A -> bool) (l : list A) (a b : A)
    (r : list A) :
  List.filter f l = a :: b :: r ->
  exists i j : nat, (i < j)%nat /\ l !! i = Some a /\ l !! j = Some b
                    /\ f a = true /\ f b = true.
Proof.
  induction l as [|x l IH]; [discriminate|]. cbn [List.filter].
  destruct (f x) eqn:Hx.
  - intros H. injection H as -> Hr.
    assert (Hb : In b (List.filter f l)) by (rewrite Hr; now left).
    apply filter_In in Hb as [Hin Hfb].
    apply list_elem_of_In, list_elem_of_lookup_1 in Hin as [j Hj].
    exists 0%nat, (S j). repeat split; try assumption. lia.
  - intros H. destruct (IH H) as (i & j & Hij & Hi & Hj & Ha & Hb).
    exists (S i), (S j). repeat split; try assumption. lia.
Qed.

(** X3: the percentage is printed under stage [i] exactly when the job
    is running and stage [i] is the current stage; so it is printed under
    at most one stage, and under none for a stage name the pipeline does
    not have. *)
Theorem progress_label_marks_the_current_stage (cs : option string)
    (js : string) :
  (forall (i : nat) (r : Rendered),
      render cs js !! i = Some r ->
      (showsProgress r = true <->
       js = "running" /\ is_Some cs /\ key <$> stages !! i = cs))
  /\ (length (List.filter showsProgress (render cs js)) <= 1)%nat.
Proof.
  assert (Hrow : forall (i : nat) (r : Rendered),
             render cs js !! i = Some r ->
             (showsProgress r = true <->
              js = "running" /\ is_Some cs /\ key <$> stages !! i = cs)).
  { intros i r Hr. unfold render in Hr. rewrite list_lookup_imap in Hr.
    destruct (stages !! i) as [stage|] eqn:Hst; [|discriminate].
    injection Hr as <-. unfold showsProgress. cbn [r_isActive r_status].
    destruct cs as [c|]; [|cbn; split; [discriminate|intros (_ & [? ?] & _); discriminate]].
    split.
    - intros H. apply andb_prop in H as [H1 H2]. apply andb_prop in H1 as [Hk Hrun].
      apply String.eqb_eq in Hk, Hrun. subst. split; [reflexivity|]. split; eauto.
    - intros (-> & _ & Hk). injection Hk as <-.
      unfold str_eq. rewrite !String.eqb_refl. cbn [andb].
      unfold getStageStatus.
      change (str_eq "running" "completed") with false.
      change (str_eq "running" "cancelled") with false.
      change (str_eq "running" "failed") with false. cbn iota.
      assert (Hidx : currentIndexOf (Some (key stage)) = Z.of_nat i).
      { apply currentIndexOf_of_key. now rewrite Hst. }
      assert (Hne : truthy (Some (key stage)) = true).
      { do 5 (destruct i as [|i]; [injection Hst as <-; reflexivity|]).
        discriminate Hst. }
      rewrite Hne, Hidx. cbn [negb].
      rewrite Z.ltb_irrefl, Z.eqb_refl. reflexivity. }
  split; [exact Hrow|].
  destruct (List.filter showsProgress (render cs js)) as [|a [|b l]] eqn:Hf;
    [simpl; lia|simpl; lia|exfalso].
  destruct (filter_two _ _ _ _ _ Hf) as (i & j & Hij & Hi & Hj & Ha & Hb).
  apply (Hrow i a Hi) in Ha as (_ & _ & Hki).
  apply (Hrow j b Hj) in Hb as (_ & _ & Hkj).
  rewrite <- Hkj in Hki.
  assert (Hlen : (j < 5)%nat).
  { apply lookup_lt_Some in Hj. unfold render in Hj.
    rewrite length_imap in Hj. exact Hj. }
  do 5 (destruct i as [|i];
        [do 5 (destruct j as [|j]; [try lia; discriminate Hki|]); lia|]).
  lia.
Qed.

Lemma progress_label_marks_the_current_stage_witness :
  render (Some "factory") "running" !! 2%nat
  = Some {| r_status := SActive; r_isActive := true;
            r_connection := Some CActive |}
  /\ showsProgress {| r_status := SActive; r_isActive := true;
                      r_connection := Some CActive |} = true.
Proof.
  split; [reflexivity|].
  apply (proj1 (progress_label_marks_the_current_stage (Some "factory")
                  "running") 2%nat _ eq_refl).
  split; [reflexivity|]. split; [eauto|reflexivity].
Defined.

End ConnectorFacts.

(** ** The progress hook on its own *)
Module StreamFacts.
Import UseSSE StreamEvents.

Lemma closed_is_final (st : State) (evs : list Event) :
  es_open st = false -> final st evs = st.
Proof.
  intros Hc. unfold final. induction evs as [|e r IH]; [reflexivity|].
  simpl. unfold dispatch at 2. rewrite Hc. exact IH.
Qed.

Lemma last_state_is_final (st : State) (evs : list Event) :
  last (st :: states st evs) = Some (final st evs).
Proof.
  revert st. induction evs as [|e r IH]; intros st; [reflexivity|].
  cbn [states]. rewrite last_cons_cons. apply IH.
Qed.

Lemma dispatch_keeps_invariant (st : State) (e : Event) :
  (connected st = true -> es_open st = true) ->
  connected (dispatch st e) = true -> es_open (dispatch st e) = true.
Proof.
  intros Hinv. unfold dispatch. destruct (es_open st) eqn:Ho;
    [|rewrite Ho; exact Hinv].
  destruct e as [|[|p]|]; simpl; auto.
  destruct (_ || _); simpl; auto.
Qed.

(** X9: in every state the hook goes through, [connected] (the LIVE mark
    of the page) implies that the event source is open: the mark is never
    left on for a stream that has been closed. *)
Theorem connected_only_while_open (jobId : option Z) (evs : list Event) :
  Forall (fun st => connected st = true -> es_open st = true)
         (connect jobId initial :: useSSE jobId evs).
Proof.
  assert (H0 : connected (connect jobId initial) = true ->
               es_open (connect jobId initial) = true).
  { destruct jobId as [n|]; [|discriminate]. simpl.
    destruct (n =? 0); discriminate. }
  constructor; [exact H0|]. unfold useSSE.
  revert H0. generalize (connect jobId initial) as st.
  induction evs as [|e r IH]; intros st Hst; [constructor|].
  cbn [states]. constructor.
  - now apply dispatch_keeps_invariant.
  - apply IH. now apply dispatch_keeps_invariant.
Qed.

Lemma connected_only_while_open_witness :
  Forall (fun st => connected st = true -> es_open st = true)
         (connect (Some 7) initial ::
          useSSE (Some 7) [Open; Message (Payload (Samples.an_event "failed"))]).
Proof. exact (connected_only_while_open (Some 7) _). Defined.

Lemma no_source_is_silent (jobId : option Z) (evs : list Event) :
  jobId = None \/ jobId = Some 0 ->
  Forall (fun st => st = initial) (useSSE jobId evs).
Proof.
  intros [-> | ->]; unfold useSSE; simpl;
    now apply PageFacts.closed_stream_is_silent.
Qed.

(** X10: with no job id, or with the id 0 (falsy in [if (!jobId)]), no
    event source is created: whatever events are sent, the hook stays in
    its initial state. *)
Theorem no_stream_without_job_id (jobId : option Z) (evs : list Event) :
  jobId = None \/ jobId = Some 0 ->
  connect jobId initial = initial
  /\ Forall (fun st => st = initial) (useSSE jobId evs).
Proof.
  intros Hid. split; [destruct Hid as [-> | ->]; reflexivity|].
  now apply no_source_is_silent.
Qed.

Lemma no_stream_without_job_id_witness :
  Forall (fun st => st = initial)
         (useSSE (Some 0) [Open; Message (Payload (Samples.an_event "running"))]).
Proof.
  exact (proj2 (no_stream_without_job_id (Some 0) _ (or_intror eq_refl))).
Defined.

(** X11: an error on the stream ends it for good: the hook closes the
    source, keeps the payload it held, and no later event (a later [open]
    included) changes it; it never reconnects. *)
Theorem stream_error_is_final (st : State) (later : list Event) :
  es_open st = true ->
  Forall (fun s => s = close st) (states st (Failure :: later))
  /\ progress (close st) = progress st
  /\ connected (close st) = false
  /\ es_open (close st) = false.
Proof.
  intros Ho. split; [|repeat split].
  cbn [states]. unfold dispatch at 1 2. rewrite Ho. cbn [onerror].
  constructor; [reflexivity|].
  now apply PageFacts.closed_stream_is_silent.
Qed.

Lemma stream_error_is_final_witness :
  es_open Samples.live = true
  /\ Forall (fun s => s = close Samples.live)
            (states Samples.live
               [Failure; Open; Message (Payload (Samples.an_event "running"))]).
Proof.
  split; [reflexivity|].
  exact (proj1 (stream_error_is_final Samples.live _ eq_refl)).
Defined.

End StreamFacts.

Module UntypedStreamFacts.
Import UseSSEJson.

Lemma status_of_encoded (p : PipelineProgress) (s : string) :
  status_is (encode p) s = str_eq (pp_status p) s.
Proof. reflexivity. Qed.

(** On the messages of the declared type the hook of [UseSSE] is this
    one: each of its steps is the step taken here on the encoded
    state and event. *)
Lemma typed_hook_agrees (st : UseSSE.State) (e : UseSSE.Event) :
  of_state (UseSSE.dispatch st e) = dispatch (of_state st) (of_event e).
Proof.
  destruct st as [held c [|]]; [|reflexivity].
  destruct e as [|[|p]|]; try reflexivity.
  unfold UseSSE.dispatch, dispatch.
  cbn [of_event onmessage UseSSE.onmessage UseSSE.es_open es_open of_state].
  change (match encode p with JNull => ?a | _ => ?b end) with b.
  rewrite !status_of_encoded.
  destruct (str_eq (pp_status p) "completed"
            || str_eq (pp_status p) "failed"); reflexivity.
Qed.

Lemma final_snoc (st : State) (evs : list Event) (e : Event) :
  final st (evs ++ [e]) = dispatch (final st evs) e.
Proof. unfold final. apply foldl_snoc. Qed.

Lemma parsed_snoc (evs : list Event) (e : Event) :
  parsed (evs ++ [e]) = parsed evs ++ parsed [e].
Proof. unfold parsed. apply omap_app. Qed.

(** X12: as long as no event closes the stream (no error, no object
    whose [status] is [completed] or [failed]), the stream stays open
    and the hook holds the value of the last message that parsed as
    JSON, whatever that value is: [null], a number or an object without
    the fields of a payload replaces the payload held before. Only
    messages that do not parse, and [open] events, leave the held value
    alone. *)
Theorem hook_holds_the_last_parsed_value (st : State) (evs : list Event) :
  es_open st = true ->
  Forall (fun e => closes e = false) evs ->
  es_open (final st evs) = true
  /\ progress (final st evs) = default (progress st) (last (parsed evs)).
Proof.
  intros Ho. induction evs as [|e evs IH] using rev_ind; intros Hq.
  - split; [exact Ho|reflexivity].
  - apply Forall_app in Hq as [Hq He]. apply Forall_inv in He.
    destruct (IH Hq) as [Hopen Hlast]. rewrite final_snoc, parsed_snoc.
    unfold dispatch. rewrite Hopen.
    destruct e as [|[v|]|]; simpl in He |- *; try discriminate;
      rewrite ?app_nil_r; try (split; [first [exact Hopen|reflexivity]|exact Hlast]).
    rewrite last_snoc. simpl.
    destruct v; simpl in He |- *; rewrite ?He; simpl; split;
      try exact Hopen; reflexivity.
Qed.

Lemma hook_holds_the_last_parsed_value_witness :
  es_open (of_state Samples.live) = true
  /\ progress (final (of_state Samples.live)
                 [Open; Message (Some (encode (Samples.an_event "running")));
                  Message None])
     = encode (Samples.an_event "running")
  /\ progress (final (of_state Samples.live)
                 [Message (Some (encode (Samples.an_event "running")));
                  Message (Some (JObj [("type", JStr "ping")]))])
     = JObj [("type", JStr "ping")]
  /\ progress (final (of_state Samples.live)
                 [Message (Some (encode (Samples.an_event "running")));
                  Message (Some JNull)])
     = JNull.
Proof.
  split; [reflexivity|]. split; [|split].
  - refine (proj2 (hook_holds_the_last_parsed_value (of_state Samples.live)
              [Open; Message (Some (encode (Samples.an_event "running")));
               Message None] eq_refl _)).
    repeat constructor.
  - refine (proj2 (hook_holds_the_last_parsed_value (of_state Samples.live)
              [Message (Some (encode (Samples.an_event "running")));
               Message (Some (JObj [("type", JStr "ping")]))] eq_refl _)).
    repeat constructor.
  - refine (proj2 (hook_holds_the_last_parsed_value (of_state Samples.live)
              [Message (Some (encode (Samples.an_event "running")));
               Message (Some JNull)] eq_refl _)).
    repeat constructor.
Defined.

End UntypedStreamFacts.

(** ** The job detail page as a whole *)
Module DetailFacts.
Import UseSSE JobDetailPage JobDetailCards.

(** X4: the header offers at most one of Cancel, Retry and View Results,
    decided by the status of the polled record alone; a pending job is
    offered none of them. *)
Theorem one_action_at_most (job : Job) :
  (length (List.filter id [showCancel job; showRetry job; showResults job])
   <= 1)%nat
  /\ (job_status job = pending ->
      showCancel job = false /\ showRetry job = false
      /\ showResults job = false)
  /\ (job_status job <> pending ->
      showCancel job || showRetry job || showResults job = true).
Proof.
  unfold showCancel, showRetry, showResults, str_eq.
  destruct (job_status job); cbn; repeat split; try lia; try congruence.
Qed.

Lemma one_action_at_most_witness :
  showCancel (Samples.a_job pending) = false
  /\ showCancel (Samples.a_job cancelled) || showRetry (Samples.a_job cancelled)
     || showResults (Samples.a_job cancelled) = true.
Proof.
  destruct (one_action_at_most (Samples.a_job pending)) as (_ & Hp & _).
  destruct (one_action_at_most (Samples.a_job cancelled)) as (_ & _ & Hc).
  split; [exact (proj1 (Hp eq_refl))|]. apply Hc. discriminate.
Defined.

(** X5: a page loaded for a job that is not running opens no stream:
    whatever events the server would send, the hook stays initial, the
    LIVE mark stays off, and progress, stage and badge are those of the
    polled record. *)
Theorem page_streams_only_running_jobs (job : Job) (jobId : Z)
    (evs : list Event) (st : State) :
  job_status job <> running ->
  In st (useSSE (sseJobId (Some job) jobId) evs) ->
  st = initial
  /\ connected st = false
  /\ currentProgress (progress st) (Some job) = job_progress job
  /\ currentStage (progress st) (Some job)
     = (if truthy (job_stage job) then job_stage job else None)
  /\ effectiveStatus (progress st) (Some job) = status_name (job_status job).
Proof.
  intros Hs Hin.
  assert (Hid : sseJobId (Some job) jobId = None).
  { unfold sseJobId. destruct (job_status job); try reflexivity. contradiction. }
  rewrite Hid in Hin.
  pose proof (StreamFacts.no_source_is_silent None evs (or_introl eq_refl))
    as Hall.
  rewrite List.Forall_forall in Hall. rewrite (Hall st Hin).
  repeat split.
Qed.

Lemma page_streams_only_running_jobs_witness :
  job_status (Samples.a_job failed) <> running
  /\ currentProgress
       (progress (dispatch (connect (sseJobId (Some (Samples.a_job failed)) 7)
                              initial)
                    (Message (Payload (Samples.an_event "running")))))
       (Some (Samples.a_job failed))
     = job_progress (Samples.a_job failed).
Proof.
  assert (Hs : job_status (Samples.a_job failed) <> running) by discriminate.
  split; [exact Hs|].
  destruct (page_streams_only_running_jobs (Samples.a_job failed) 7
              [Message (Payload (Samples.an_event "running"))]
              _ Hs (or_introl eq_refl)) as (_ & _ & Hp & _).
  exact Hp.
Defined.

(** X6: the buttons follow the polled record, not the stream. When the
    stream of a running job delivers its [completed] event, the badge
    reads completed and the stream is closed, yet Cancel is still offered
    and View Results is not; on a [failed] event the badge still reads
    running and Retry is not offered. *)
Theorem terminal_event_leaves_buttons_stale (st : State)
    (data : PipelineProgress) (job : Job) :
  es_open st = true ->
  job_status job = running ->
  let st' := dispatch st (Message (Payload data)) in
  (pp_status data = "completed" ->
   effectiveStatus (progress st') (Some job) = "completed"
   /\ showCancel job = true /\ showResults job = false
   /\ es_open st' = false /\ connected st' = false)
  /\ (pp_status data = "failed" ->
      effectiveStatus (progress st') (Some job) = "running"
      /\ showCancel job = true /\ showRetry job = false
      /\ es_open st' = false /\ connected st' = false).
Proof.
  intros Ho Hrun st'. subst st'. unfold dispatch. rewrite Ho.
  unfold showCancel, showRetry, showResults, effectiveStatus. rewrite Hrun.
  destruct data as [stage value status err]. cbn [onmessage pp_status].
  split; intros ->; unfold str_eq; cbn; repeat split.
Qed.

Lemma terminal_event_leaves_buttons_stale_witness :
  es_open Samples.live = true
  /\ job_status (Samples.a_job running) = running
  /\ effectiveStatus
       (progress (dispatch Samples.live
                    (Message (Payload (Samples.an_event "completed")))))
       (Some (Samples.a_job running)) = "completed"
  /\ showCancel (Samples.a_job running) = true
  /\ showResults (Samples.a_job running) = false.
Proof.
  destruct (terminal_event_leaves_buttons_stale Samples.live
              (Samples.an_event "completed") (Samples.a_job running)
              eq_refl eq_refl) as [Hc _].
  destruct (Hc eq_refl) as (He & Hca & Hr & _).
  repeat split; assumption.
Defined.

Lemma or_else_not_empty (a b : option string) :
  b <> Some EmptyString -> or_else a b <> Some EmptyString.
Proof.
  unfold or_else. destruct (truthy a) eqn:Ht; [|auto].
  intros _ ->. discriminate Ht.
Qed.

(** X7: the stage the page shows and hands to the visualizer is never
    the empty string: a non-empty stage named by the stream wins and is
    what the card reads; without one, the record's non-empty stage is
    used and is what the card reads; and when neither names a stage the
    value is null and the card reads Queued. *)
Theorem current_stage_is_never_empty (progress : option PipelineProgress)
    (job : option Job) :
  currentStage progress job <> Some EmptyString
  /\ truthy (currentStage progress job)
     = match currentStage progress job with Some _ => true | None => false end
  /\ (forall p, progress = Some p -> pp_stage p <> EmptyString ->
                currentStage progress job = Some (pp_stage p)
                /\ stageCard progress job = pp_stage p)
  /\ (forall j s, truthy (pp_stage <$> progress) = false ->
                  job = Some j -> job_stage j = Some s -> s <> EmptyString ->
                  currentStage progress job = Some s
                  /\ stageCard progress job = s)
  /\ (truthy (pp_stage <$> progress) = false ->
      truthy (job ≫= job_stage) = false ->
      currentStage progress job = None /\ stageCard progress job = "Queued").
Proof.
  assert (Hne : currentStage progress job <> Some EmptyString).
  { unfold currentStage. apply or_else_not_empty. discriminate. }
  split; [exact Hne|]. split; [|split; [|split]].
  - destruct (currentStage progress job) as [s|]; [|reflexivity].
    unfold truthy. destruct (str_eq s EmptyString) eqn:E; [|reflexivity].
    apply String.eqb_eq in E. subst s. contradiction.
  - intros p -> Hp. unfold stageCard, currentStage, or_else. simpl.
    assert (Ht : str_eq (pp_stage p) EmptyString = false).
    { apply String.eqb_neq. exact Hp. }
    rewrite Ht. simpl. rewrite Ht. simpl. rewrite Ht. split; reflexivity.
  - intros j s Hp -> Hs Hne'. unfold stageCard, currentStage, or_else.
    rewrite Hp. simpl. rewrite Hs. simpl.
    assert (Ht : str_eq s EmptyString = false).
    { apply String.eqb_neq. exact Hne'. }
    rewrite Ht. simpl. rewrite Ht. split; reflexivity.
  - intros Hp Hj. unfold stageCard, currentStage, or_else.
    rewrite Hp, Hj. simpl. split; reflexivity.
Qed.

Lemma current_stage_is_never_empty_witness :
  currentStage (Some (Samples.an_event "running")) (Some (Samples.record_at 40))
  = Some "factory"
  /\ currentStage None (Some (Samples.record_at 40)) = Some "spider"
  /\ stageCard None (Some (Samples.record_at 40)) = "spider"
  /\ stageCard None (Some (Samples.a_job running)) = "Queued".
Proof.
  destruct (current_stage_is_never_empty (Some (Samples.an_event "running"))
              (Some (Samples.record_at 40))) as (_ & _ & Hs & _).
  destruct (current_stage_is_never_empty None (Some (Samples.record_at 40)))
    as (_ & _ & _ & Hr & _).
  destruct (current_stage_is_never_empty None (Some (Samples.a_job running)))
    as (_ & _ & _ & _ & Hq).
  split; [apply (Hs _ eq_refl); discriminate|].
  destruct (Hr (Samples.record_at 40) "spider" eq_refl eq_refl eq_refl)
    as [Hc Hd]; [discriminate|].
  split; [exact Hc|]. split; [exact Hd|].
  exact (proj2 (Hq eq_refl eq_refl)).
Defined.

(** X8: the Cancel handler refetches the job exactly when the cancel
    request is answered with an ok status and a JSON body; any other
    answer is swallowed by the empty [catch] and the page does nothing. *)
Theorem handleCancel_refetches_iff_ok (res : Api.Response) (jobId : Z) :
  (handleCancel (fun _ _ => res) jobId = Refetch
   <-> Api.ok res = true /\ is_Some (Api.json res))
  /\ (handleCancel (fun _ _ => res) jobId = Nothing
      <-> ~ (Api.ok res = true /\ is_Some (Api.json res))).
Proof.
  unfold handleCancel, Api.call. cbn [Api.member Api.api].
  change (str_eq "getProjects" "cancelJob") with false.
  change (str_eq "getProject" "cancelJob") with false.
  change (str_eq "createProject" "cancelJob") with false.
  change (str_eq "deleteProject" "cancelJob") with false.
  change (str_eq "getJobs" "cancelJob") with false.
  change (str_eq "getJob" "cancelJob") with false.
  change (str_eq "createJob" "cancelJob") with false.
  change (str_eq "cancelJob" "cancelJob") with true.
  cbn iota. unfold Api.via_request, Api.request. cbn [Api.init_method].
  assert (Hsome : forall j : Json, is_Some (Some j)) by eauto.
  assert (Hnone : ~ is_Some (@None Json)) by (intros [? ?]; discriminate).
  destruct (Api.ok res); destruct (Api.json res) as [[| | | | |fields]|];
    cbn; (split; split); intros H; try reflexivity; try discriminate;
    try (split; [reflexivity|apply Hsome]);
    try match goal with
        | H' : false = true /\ _ |- _ => destruct H' as [H' _]; discriminate H'
        | H' : _ /\ is_Some None |- _ => destruct H' as [_ H']; now apply Hnone in H'
        | |- ~ (false = true /\ _) => intros [H' _]; discriminate H'
        | |- ~ (_ /\ is_Some None) => intros [_ H']; now apply Hnone in H'
        end;
    try (exfalso; apply H; split; [reflexivity|apply Hsome]).
Qed.

Lemma handleCancel_refetches_iff_ok_witness :
  handleCancel (fun _ _ => Samples.not_found) 7 = Nothing.
Proof.
  apply (proj2 (handleCancel_refetches_iff_ok Samples.not_found 7)).
  intros [H _]. discriminate H.
Defined.

(** X25: the last streamed payload outlives the stream. When the job is
    refetched and is no longer running, the effect's cleanup closes the
    stream and no new one is opened, but the payload stays in the hook:
    the page goes on showing the streamed progress in place of the
    refetched record's. *)
Theorem streamed_progress_shadows_refetched_record (st : State)
    (data : PipelineProgress) (job : Job) (jobId : Z) :
  progress st = Some data ->
  job_status job <> running ->
  let st' := connect (sseJobId (Some job) jobId) (cleanup st) in
  es_open st' = false
  /\ connected st' = false
  /\ progress st' = Some data
  /\ currentProgress (progress st') (Some job) = pp_progress data.
Proof.
  intros Hp Hs st'. subst st'.
  assert (Hid : sseJobId (Some job) jobId = None).
  { unfold sseJobId. destruct (job_status job); try reflexivity. contradiction. }
  rewrite Hid. cbn. rewrite Hp. repeat split.
Qed.

Lemma streamed_progress_shadows_refetched_record_witness :
  let st := dispatch Samples.live (Message (Payload (Samples.an_event "running"))) in
  progress st = Some (Samples.an_event "running")
  /\ job_status (Samples.a_job cancelled) <> running
  /\ currentProgress
       (progress (connect (sseJobId (Some (Samples.a_job cancelled)) 7)
                    (cleanup st)))
       (Some (Samples.a_job cancelled)) = 60%Q.
Proof.
  cbn zeta.
  assert (Hs : job_status (Samples.a_job cancelled) <> running) by discriminate.
  split; [reflexivity|]. split; [exact Hs|].
  exact (proj2 (proj2 (proj2
    (streamed_progress_shadows_refetched_record
       (dispatch Samples.live (Message (Payload (Samples.an_event "running"))))
       (Samples.an_event "running") (Samples.a_job cancelled) 7
       eq_refl Hs)))).
Defined.

End DetailFacts.

(** ** The API client, continued *)
Module RequestFacts.
Import Api.

(** X13: a member that goes through [request] resolves exactly when the
    response is ok and its body is JSON; an ok response whose body is not
    JSON (an empty 204 answer to a DELETE, say) makes the call reject
    with the parser's error although the server succeeded. *)
Theorem request_resolves_iff_ok_json (res : Response) (name : string)
    (m : Member) (args : list Arg) :
  member name api = Some m ->
  name <> "getDatasetCard" -> name <> "getDownloadUrl" ->
  ((exists v, m (fun _ _ => res) args = Async (Resolved v))
   <-> ok res = true /\ is_Some (json res))
  /\ (ok res = true -> json res = None ->
      m (fun _ _ => res) args = Async (Rejected SyntaxError))
  /\ (forall j, ok res = true -> json res = Some j ->
                m (fun _ _ => res) args = Async (Resolved (VJson j))).
Proof.
  intros Hm Hcard Hurl.
  destruct (ApiFacts.member_via_request name m Hm Hcard Hurl)
    as (path & opts & ->).
  unfold via_request, request.
  assert (Hnone : ~ is_Some (@None Json)) by (intros [? ?]; discriminate).
  destruct (ok res); cbn [negb].
  - destruct (json res) as [j|]; (split; [split|split]).
    + intros _. split; [reflexivity|eauto].
    + intros _. eauto.
    + discriminate.
    + intros j' _ Hj. injection Hj as <-. reflexivity.
    + intros [v Hv]. discriminate.
    + intros [_ Hj]. contradiction.
    + reflexivity.
    + discriminate.
  - split; [split|split]; try discriminate.
    + intros [v Hv]. destruct (json res) as [[]|]; discriminate.
    + intros [? _]. discriminate.
Qed.

Lemma request_resolves_iff_ok_json_witness :
  call "deleteProject" (fun _ _ =>
     {| ok := true; status := 204; statusText := "No Content";
        text := EmptyString; json := None |}) [ANum 3]
  = Async (Rejected SyntaxError).
Proof.
  refine (proj1 (proj2
    (request_resolves_iff_ok_json
       {| ok := true; status := 204; statusText := "No Content";
          text := EmptyString; json := None |}
       "deleteProject"
       (via_request (fun a => "/api/projects/" +:+ show (a !! 0%nat))
                    (fun _ => with_method DELETE None))
       [ANum 3] eq_refl _ _)) eq_refl eq_refl); discriminate.
Defined.



End RequestFacts.

(** ** The list of active jobs *)
Module ActiveJobsFacts.
Import ActiveJobs.

Lemma recent_is_not_active (j : Job) : isRecentJob j = negb (isActiveJob j).
Proof. unfold isRecentJob, isActiveJob. now rewrite negb_orb. Qed.

Section Sorted.
Variable getTime : string -> Z.

Abbreviation newer := (ActiveJobs.newer getTime).

Lemma insert_newest_perm (x : Job) (l : list Job) :
  Permutation (insert_newest getTime x l) (x :: l).
Proof.
  induction l as [|y l IH]; [reflexivity|]. simpl.
  destruct (_ <=? 0); [reflexivity|].
  rewrite IH. apply perm_swap.
Qed.

Lemma sort_newest_perm (l : list Job) : Permutation (sort_newest getTime l) l.
Proof.
  induction l as [|x l IH]; [reflexivity|]. unfold sort_newest in *. simpl.
  rewrite insert_newest_perm. now constructor.
Qed.

Lemma insert_newest_sorted (x : Job) (l : list Job) :
  StronglySorted newer l -> StronglySorted newer (insert_newest getTime x l).
Proof.
  induction l as [|y l IH]; intros Hs; simpl; [repeat constructor|].
  apply StronglySorted_inv in Hs as [Hs Hall].
  destruct (_ <=? 0) eqn:E.
  - apply Z.leb_le in E. constructor; [now constructor|].
    constructor; [unfold newer; lia|].
    rewrite List.Forall_forall in Hall |- *. intros z Hz.
    specialize (Hall z Hz). unfold newer in *. lia.
  - apply Z.leb_gt in E. constructor; [auto|].
    rewrite List.Forall_forall in Hall |- *. intros z Hz.
    apply (Permutation_in _ (insert_newest_perm x l)) in Hz as [<-|Hz];
      [unfold newer; lia|auto].
Qed.

Lemma sort_newest_sorted (l : list Job) :
  StronglySorted newer (sort_newest getTime l).
Proof.
  induction l as [|x l IH]; [constructor|].
  unfold sort_newest in *. simpl. now apply insert_newest_sorted.
Qed.

Lemma sort_newest_In (l : list Job) (j : Job) :
  In j (sort_newest getTime l) <-> In j l.
Proof.
  split; apply Permutation_in; [|symmetry]; apply sort_newest_perm.
Qed.

Lemma sort_newest_Forall (P : Job -> Prop) (l : list Job) :
  List.Forall P l -> List.Forall P (sort_newest getTime l).
Proof.
  rewrite !List.Forall_forall. intros H j Hj. apply H.
  now apply sort_newest_In.
Qed.

Lemma sorted_app_In (l1 l2 : list Job) (a b : Job) :
  StronglySorted newer (l1 ++ l2) -> In a l1 -> In b l2 -> newer a b.
Proof.
  induction l1 as [|x l1 IH]; intros Hs Ha Hb; [destruct Ha|].
  simpl in Hs. apply StronglySorted_inv in Hs as [Hs Hall].
  destruct Ha as [<-|Ha]; [|auto].
  rewrite List.Forall_forall in Hall. apply Hall, in_or_app. now right.
Qed.

Lemma sorted_take_drop (l : list Job) (n : nat) (a b : Job) :
  StronglySorted newer l -> In a (take n l) -> In b (drop n l) -> newer a b.
Proof.
  intros Hs Ha Hb. rewrite <- (take_drop n l) in Hs.
  exact (sorted_app_In _ _ a b Hs Ha Hb).
Qed.

Lemma sorted_app_l (l1 l2 : list Job) :
  StronglySorted newer (l1 ++ l2) -> StronglySorted newer l1.
Proof.
  induction l1 as [|x l1 IH]; intros Hs; [constructor|].
  simpl in Hs. apply StronglySorted_inv in Hs as [Hs Hall].
  constructor; [auto|]. rewrite List.Forall_forall in Hall |- *.
  intros y Hy. apply Hall, in_or_app. now left.
Qed.

Lemma arrange_In (allJobs : list Job) (j : Job) :
  In j (arrange getTime allJobs) -> In j allJobs.
Proof.
  unfold arrange. intros Hj. apply in_app_or in Hj as [Hj|Hj].
  - apply sort_newest_In, filter_In in Hj. tauto.
  - apply list_elem_of_In, elem_of_take in Hj as (i & Hj & _).
    apply list_elem_of_lookup_2, list_elem_of_In, sort_newest_In,
      filter_In in Hj. tauto.
Qed.

(** X16: how the list is arranged. It is the running and pending jobs,
    newest first, followed by at most three of the other jobs, newest
    first; no running or pending job is left out, nothing is shown that
    was not fetched, and a job that is left out is no newer than any of
    the three shown after the active ones. *)
Theorem arrange_shows_active_first (allJobs : list Job) :
  exists active recent,
    arrange getTime allJobs = active ++ recent
    /\ Permutation active (List.filter isActiveJob allJobs)
    /\ List.Forall (fun j => isActiveJob j = false /\ In j allJobs) recent
    /\ (length recent <= 3)%nat
    /\ StronglySorted newer active
    /\ StronglySorted newer recent
    /\ (forall j, In j allJobs -> ~ In j (arrange getTime allJobs) ->
                  forall k, In k recent -> newer k j).
Proof.
  exists (sort_newest getTime (List.filter isActiveJob allJobs)),
         (take 3 (sort_newest getTime (List.filter isRecentJob allJobs))).
  split; [reflexivity|]. split; [apply sort_newest_perm|].
  split; [|split; [|split; [|split]]].
  - rewrite List.Forall_forall. intros j Hj.
    apply list_elem_of_In, elem_of_take in Hj as (i & Hj & _).
    apply list_elem_of_lookup_2, list_elem_of_In, sort_newest_In,
      filter_In in Hj as [Hin Hr].
    rewrite recent_is_not_active in Hr. apply negb_true_iff in Hr. auto.
  - rewrite length_take. lia.
  - apply sort_newest_sorted.
  - set (s := sort_newest getTime (List.filter isRecentJob allJobs)).
    assert (Hs : StronglySorted newer s) by apply sort_newest_sorted.
    rewrite <- (take_drop 3 s) in Hs.
    now apply sorted_app_l in Hs.
  - intros j Hj Hout k Hk.
    set (s := sort_newest getTime (List.filter isRecentJob allJobs)) in *.
    apply (sorted_take_drop s 3); [apply sort_newest_sorted|exact Hk|].
    assert (Hrec : isRecentJob j = true).
    { rewrite recent_is_not_active. apply negb_true_iff.
      destruct (isActiveJob j) eqn:Ha; [|reflexivity]. exfalso. apply Hout.
      unfold arrange. apply in_or_app. left.
      apply sort_newest_In, filter_In. auto. }
    assert (Hjs : In j s) by (apply sort_newest_In, filter_In; auto).
    rewrite <- (take_drop 3 s) in Hjs. apply in_app_or in Hjs as [Hjs|Hjs];
      [|exact Hjs].
    exfalso. apply Hout. unfold arrange. apply in_or_app. now right.
Qed.

(** X17: what loading shows. If the overview request fails, no job is
    shown even when projects and jobs load; otherwise a project whose
    jobs cannot be fetched is skipped and every running or pending job of
    every other project is shown; loading always ends. *)
Theorem load_skips_failed_projects (projectsResult : option (list Project))
    (overviewResolved : bool) (getJobs : Z -> option (list Job)) :
  loading (load getTime projectsResult overviewResolved getJobs) = false
  /\ (overviewResolved = false ->
      jobs (load getTime projectsResult overviewResolved getJobs) = []
      /\ projects (load getTime projectsResult overviewResolved getJobs) = [])
  /\ (forall ps p js j,
         projectsResult = Some ps -> overviewResolved = true ->
         In p ps -> getJobs (prj_id p) = Some js -> In j js ->
         isActiveJob j = true ->
         In j (jobs (load getTime projectsResult overviewResolved getJobs)))
  /\ (forall j,
         In j (jobs (load getTime projectsResult overviewResolved getJobs)) ->
         exists ps p js, projectsResult = Some ps /\ In p ps
                         /\ getJobs (prj_id p) = Some js /\ In j js).
Proof.
  split; [destruct projectsResult, overviewResolved; reflexivity|].
  split; [intros ->; destruct projectsResult; split; reflexivity|].
  split.
  - intros ps p js j -> -> Hp Hjs Hj Ha. simpl. unfold arrange.
    apply in_or_app. left. apply sort_newest_In, filter_In. split; [|exact Ha].
    unfold collect. apply in_flat_map. exists p. split; [exact Hp|].
    now rewrite Hjs.
  - intros j Hj. destruct projectsResult as [ps|]; [|destruct Hj].
    destruct overviewResolved; [|destruct Hj]. simpl in Hj.
    assert (Hall : In j (collect ps getJobs)) by now apply arrange_In.
    unfold collect in Hall. apply in_flat_map in Hall as (p & Hp & Hjp).
    destruct (getJobs (prj_id p)) as [js|] eqn:Hjs; [|destruct Hjp].
    exists ps, p, js. auto.
Qed.

End Sorted.

(** X18: the project name shown beside a job is never empty: it is
    the name of the first project of the list with the job's project
    id when that name is not empty, and [Project #<id>] when that name
    is empty or no project has that id. *)
Theorem getProjectName_never_empty (projects : list Project) (projectId : Z) :
  getProjectName projects projectId <> EmptyString
  /\ (forall before p after,
         projects = before ++ p :: after ->
         (forall q, In q before -> prj_id q <> projectId) ->
         prj_id p = projectId ->
         getProjectName projects projectId
         = if str_eq (prj_name p) EmptyString
           then "Project #" +:+ pretty projectId
           else prj_name p)
  /\ ((forall p, In p projects -> prj_id p <> projectId) ->
      getProjectName projects projectId = "Project #" +:+ pretty projectId).
Proof.
  split; [|split].
  - unfold getProjectName.
    destruct (List.find (fun p => prj_id p =? projectId) projects) as [p|];
      [|discriminate].
    destruct (str_eq (prj_name p) EmptyString) eqn:Hn; [discriminate|].
    apply String.eqb_neq in Hn. exact Hn.
  - intros before p after -> Hbefore Hid. unfold getProjectName.
    assert (Hf : List.find (fun p => prj_id p =? projectId)
                   (before ++ p :: after) = Some p).
    { induction before as [|q before IH]; simpl.
      - apply Z.eqb_eq in Hid. now rewrite Hid.
      - destruct (prj_id q =? projectId) eqn:E.
        + apply Z.eqb_eq in E. exfalso. apply (Hbefore q); [now left|exact E].
        + apply IH. intros q' Hq'. apply Hbefore. now right. }
    rewrite Hf. reflexivity.
  - intros Hno. unfold getProjectName.
    destruct (List.find (fun p => prj_id p =? projectId) projects) as [p|] eqn:Hf;
      [|reflexivity].
    apply find_some in Hf as [Hin Hid]. apply Z.eqb_eq in Hid.
    exfalso. apply (Hno p Hin Hid).
Qed.

Example arrange_some_jobs :
  map job_id (arrange MoreSamples.day_of MoreSamples.some_jobs)
  = [4; 2; 6; 5; 3].
Proof. reflexivity. Qed.

Lemma arrange_shows_active_first_witness :
  exists active recent,
    arrange MoreSamples.day_of MoreSamples.some_jobs = active ++ recent
    /\ Permutation active (List.filter isActiveJob MoreSamples.some_jobs)
    /\ (length recent <= 3)%nat.
Proof.
  destruct (arrange_shows_active_first MoreSamples.day_of MoreSamples.some_jobs)
    as (active & recent & Heq & Hperm & _ & Hlen & _).
  exists active, recent. auto.
Defined.

Lemma load_skips_failed_projects_witness :
  map job_id (jobs (load MoreSamples.day_of (Some MoreSamples.some_projects)
                      true MoreSamples.jobs_of)) = [4; 2; 6; 5; 3]
  /\ jobs (load MoreSamples.day_of (Some MoreSamples.some_projects) false
             MoreSamples.jobs_of) = [].
Proof.
  split; [reflexivity|].
  exact (proj1 (proj1 (proj2 (load_skips_failed_projects MoreSamples.day_of
           (Some MoreSamples.some_projects) false MoreSamples.jobs_of))
           eq_refl)).
Defined.

Lemma getProjectName_never_empty_witness :
  getProjectName (MoreSamples.some_projects
                  ++ [MoreSamples.a_project 1 "Shadowed"]) 1 = "Docs"
  /\ getProjectName MoreSamples.some_projects 2 = "Project #2"
  /\ getProjectName MoreSamples.some_projects 3 = "Project #3".
Proof.
  split; [|split].
  - apply (proj1 (proj2 (getProjectName_never_empty
                          (MoreSamples.some_projects
                           ++ [MoreSamples.a_project 1 "Shadowed"]) 1))
             [] (MoreSamples.a_project 1 "Docs")
             [MoreSamples.a_project 2 EmptyString;
              MoreSamples.a_project 1 "Shadowed"]);
      [reflexivity|intros q []|reflexivity].
  - apply (proj1 (proj2 (getProjectName_never_empty
                          MoreSamples.some_projects 2))
             [MoreSamples.a_project 1 "Docs"]
             (MoreSamples.a_project 2 EmptyString) []);
      [reflexivity|intros q [<-|[]]; discriminate|reflexivity].
  - apply (proj2 (proj2 (getProjectName_never_empty
                          MoreSamples.some_projects 3))).
    intros p [<-|[<-|[]]]; discriminate.
Defined.

End ActiveJobsFacts.

(** ** The new-job form *)
Module NewJobFacts.
Import NewJobPage.
Local Set Warnings "-clear-no-such-hyp".

(** X19: toggling a stage section flips that section only, and toggling
    it twice gives back the set of expanded sections. *)
Theorem toggleStage_flips (key : string) (prev : gset string) :
  (key ∈ toggleStage key prev <-> key ∉ prev)
  /\ (forall other, other <> key ->
        (other ∈ toggleStage key prev <-> other ∈ prev))
  /\ toggleStage key (toggleStage key prev) = prev.
Proof.
  unfold toggleStage. split; [|split].
  - destruct (decide (key ∈ prev)); set_solver.
  - intros other Hne. destruct (decide (key ∈ prev)); set_solver.
  - destruct (decide (key ∈ prev)) as [Hin|Hout].
    + destruct (decide (key ∈ prev ∖ {[key]})) as [H|H]; [set_solver|].
      apply set_eq. intros x. destruct (decide (x = key)); set_solver.
    + destruct (decide (key ∈ prev ∪ {[key]})) as [H|H]; [|set_solver].
      set_solver.
Qed.

Section Submit.
Variable trim : string -> string.

Lemma urlList_not_empty (urls : string) (u : string) :
  In u (urlList trim urls) ->
  u <> EmptyString /\ exists line, In line (split_on newline urls) /\ u = trim line.
Proof.
  unfold urlList. intros H. apply filter_In in H as [Hin Hne].
  apply negb_true_iff, String.eqb_neq in Hne. split; [exact Hne|].
  apply in_map_iff in Hin as (line & <- & Hl). eauto.
Qed.

Lemma urlList_nil (urls : string) :
  urlList trim urls = [] <->
  forall line, In line (split_on newline urls) -> trim line = EmptyString.
Proof.
  unfold urlList. split.
  - intros Hnil line Hl.
    destruct (str_eq (trim line) EmptyString) eqn:E;
      [now apply String.eqb_eq in E|].
    assert (Hin : In (trim line)
              (List.filter (fun u => negb (str_eq u EmptyString))
                 (map trim (split_on newline urls)))).
    { apply filter_In. split; [now apply in_map|now rewrite E]. }
    rewrite Hnil in Hin. destruct Hin.
  - intros Hall.
    induction (split_on newline urls) as [|l ls IH]; [reflexivity|].
    simpl. rewrite (Hall l (or_introl eq_refl)).
    change (str_eq EmptyString EmptyString) with true. simpl.
    apply IH. intros line Hl. apply Hall. now right.
Qed.

(** X20: submitting the form. If every line of the text area is blank
    once trimmed, no request is made (the outcome does not depend on the
    server): the page asks for at least one URL, does not navigate and
    leaves [submitting] alone. Otherwise a request is made, [submitting]
    ends false, and the page navigates only when it shows no error. *)
Theorem handleSubmit_needs_a_url (srv srv' : Api.Server) (projectId : Z)
    (urls : string) (quickStart : bool) (st : State) :
  let st' := handleSubmit trim srv projectId urls quickStart st in
  ((forall line, In line (split_on newline urls) -> trim line = EmptyString) ->
   st' = handleSubmit trim srv' projectId urls quickStart st
   /\ error st' = Some (Text "Please enter at least one URL.")
   /\ pushed st' = pushed st
   /\ submitting st' = submitting st)
  /\ ((exists line, In line (split_on newline urls)
                    /\ trim line <> EmptyString) ->
      submitting st' = false
      /\ (error st' = None \/ pushed st' = pushed st)
      /\ (forall e, Api.call "createJob" srv
                      [Api.ANum projectId;
                       Api.AJson (jobData (urlList trim urls) quickStart)]
                    = Api.Async (Api.Rejected e) ->
                    error st' = Some (message_of e) /\ pushed st' = pushed st)).
Proof.
  intros st'. subst st'. unfold handleSubmit. split.
  - intros Hblank. apply urlList_nil in Hblank. rewrite Hblank.
    repeat split.
  - intros (line & Hl & Hne).
    destruct (urlList trim urls) as [|u us] eqn:Hu.
    { exfalso. apply Hne. apply (proj1 (urlList_nil urls) Hu line Hl). }
    destruct (Api.call "createJob" srv _) as [[[[| | | | |fields]|t]|e]|s];
      cbn; (split; [reflexivity|]); (split; [auto|]);
      intros e' He'; try discriminate.
    injection He' as <-. split; reflexivity.
Qed.

End Submit.

Lemma toggleStage_flips_witness :
  toggleStage "quality" (toggleStage "quality" {["scraping"]}) = {["scraping"]}.
Proof.
  exact (proj2 (proj2 (toggleStage_flips "quality" {["scraping"]}))).
Defined.

Example split_on_lines :
  split_on newline ("a" +:+ String newline (String newline "b"))
  = ["a"; EmptyString; "b"]
  /\ split_on newline EmptyString = [EmptyString].
Proof. split; reflexivity. Qed.

Lemma handleSubmit_needs_a_url_witness :
  let blank := String newline (String newline EmptyString) in
  (forall line, In line (split_on newline blank) ->
                MoreSamples.no_trim line = EmptyString)
  /\ error (handleSubmit MoreSamples.no_trim (fun _ _ => Samples.not_found) 1
              blank false MoreSamples.blank_form)
     = Some (Text "Please enter at least one URL.").
Proof.
  cbn zeta.
  assert (Hblank : forall line,
             In line (split_on newline (String newline (String newline EmptyString))) ->
             MoreSamples.no_trim line = EmptyString).
  { intros line [<-|[<-|[<-|[]]]]; reflexivity. }
  split; [exact Hblank|].
  destruct (handleSubmit_needs_a_url MoreSamples.no_trim
              (fun _ _ => Samples.not_found) (fun _ _ => Samples.not_found) 1
              (String newline (String newline EmptyString)) false
              MoreSamples.blank_form) as [H _].
  exact (proj1 (proj2 (H Hblank))).
Defined.

End NewJobFacts.

(** ** The dataset card viewer *)
Module ResultsFacts.
Import JobResultsPage.

(** X21: viewing a dataset card never shows the failure text for an
    answer of the server: whatever the status, the body is shown as the
    card (an error body included); and a second click on the same export
    closes the card again. *)
Theorem handleViewCard_shows_any_body (srv : Api.Server) (exportId : Z)
    (st : State) :
  selectedExport st <> Some exportId ->
  let st' := handleViewCard srv exportId st in
  datasetCard st'
  = Some (Api.text (srv (Api.API_BASE +:+ "/api/exports/" +:+ pretty exportId
                           +:+ "/card") Api.no_options))
  /\ selectedExport st' = Some exportId
  /\ handleViewCard srv exportId st'
     = {| datasetCard := None; selectedExport := None |}.
Proof.
  intros Hsel st'. subst st'. unfold handleViewCard.
  assert (Hne : match selectedExport st with
                | Some n => n =? exportId
                | None => false
                end = false).
  { destruct (selectedExport st) as [n|]; [|reflexivity].
    apply Z.eqb_neq. congruence. }
  rewrite Hne.
  assert (Hcall : Api.call "getDatasetCard" srv [Api.ANum exportId]
                  = Api.Async (Api.Resolved (Api.VText (Api.text
                      (srv (Api.API_BASE +:+ "/api/exports/" +:+ pretty exportId
                              +:+ "/card") Api.no_options)))))
    by reflexivity.
  rewrite Hcall. cbn [datasetCard selectedExport]. rewrite Z.eqb_refl.
  repeat split.
Qed.

Lemma handleViewCard_shows_any_body_witness :
  datasetCard (handleViewCard (fun _ _ => Samples.not_found) 7
                 {| datasetCard := None; selectedExport := None |})
  = Some "detail: Export not found".
Proof.
  refine (proj1 (handleViewCard_shows_any_body (fun _ _ => Samples.not_found) 7
                   {| datasetCard := None; selectedExport := None |} _)).
  discriminate.
Defined.

End ResultsFacts.

(** ** The job comparison page *)
Module CompareFacts.
Import JobComparePage.
Local Set Warnings "-clear-no-such-hyp".

Lemma toggleJob_size (jobId : Z) (prev : gset Z) :
  (size prev <= 10)%nat -> (size (toggleJob jobId prev) <= 10)%nat.
Proof.
  intros Hsize. unfold toggleJob.
  destruct (decide (jobId ∈ prev)) as [Hin|Hout].
  - rewrite size_difference; [|set_solver]. rewrite size_singleton. lia.
  - destruct (decide (size prev < 10)%nat) as [Hlt|Hge]; [|exact Hsize].
    rewrite size_union; [|set_solver]. rewrite size_singleton. lia.
Qed.

(** X22: the selection holds at most ten jobs: a toggle keeps that
    bound, a selected job can always be deselected, an eleventh job is not
    added, and, within the bound, toggling the same job twice gives back
    the selection. *)
Theorem toggleJob_keeps_ten (jobId : Z) (prev : gset Z) :
  (size prev <= 10)%nat ->
  (size (toggleJob jobId prev) <= 10)%nat
  /\ (jobId ∈ prev -> jobId ∉ toggleJob jobId prev)
  /\ (jobId ∉ prev -> size prev = 10%nat -> toggleJob jobId prev = prev)
  /\ toggleJob jobId (toggleJob jobId prev) = prev.
Proof.
  intros Hsize. unfold toggleJob.
  destruct (decide (jobId ∈ prev)) as [Hin|Hout].
  - assert (Hsub : size (prev ∖ {[jobId]}) = (size prev - 1)%nat).
    { rewrite size_difference; [|set_solver]. now rewrite size_singleton. }
    split; [lia|]. split; [set_solver|]. split; [contradiction|].
    destruct (decide (jobId ∈ prev ∖ {[jobId]})) as [H|H]; [set_solver|].
    assert (Hpos : (0 < size prev)%nat).
    { destruct (decide (size prev = 0%nat)) as [H0|H0]; [|lia].
      apply size_empty_inv in H0. set_solver. }
    destruct (decide (size (prev ∖ {[jobId]}) < 10)%nat) as [_|Hge]; [|lia].
    apply set_eq. intros x. destruct (decide (x = jobId)); set_solver.
  - destruct (decide (size prev < 10)%nat) as [Hlt|Hge].
    + assert (Hadd : size (prev ∪ {[jobId]}) = S (size prev)).
      { rewrite size_union; [|set_solver]. rewrite size_singleton. lia. }
      split; [lia|]. split; [contradiction|]. split; [lia|].
      destruct (decide (jobId ∈ prev ∪ {[jobId]})) as [_|H]; [|set_solver].
      set_solver.
    + split; [lia|]. split; [contradiction|]. split; [reflexivity|].
      destruct (decide (jobId ∈ prev)); [contradiction|].
      destruct (decide (size prev < 10)%nat); [lia|reflexivity].
Qed.

Lemma toggleJob_keeps_ten_witness :
  (size ({[1%Z; 2%Z]} : gset Z) <= 10)%nat
  /\ toggleJob 2 (toggleJob 2 {[1; 2]}) = {[1; 2]}.
Proof.
  assert (H : (size ({[1%Z; 2%Z]} : gset Z) <= 10)%nat) by (vm_compute; lia).
  split; [exact H|].
  exact (proj2 (proj2 (proj2 (toggleJob_keeps_ten 2 {[1; 2]} H)))).
Defined.

(** X23: starting from the empty selection, no sequence of clicks selects
    more than ten jobs. *)
Theorem selection_never_exceeds_ten (clicks : list Z) :
  (size (foldl (fun selected jobId => toggleJob jobId selected)
               (∅ : gset Z) clicks) <= 10)%nat.
Proof.
  induction clicks as [|c clicks IH] using rev_ind.
  - cbn [foldl]. rewrite size_empty. lia.
  - rewrite foldl_snoc. apply (toggleJob_size c _ IH).
Qed.

Lemma math_max_upper (values : list Q) (b : Q) :
  math_max values = Finite b ->
  (forall x, In x values -> x <= b)%Q /\ In b values.
Proof.
  revert b. induction values as [|x r IH]; intros b; [discriminate|].
  simpl. destruct (math_max r) as [|m] eqn:Hm.
  - intros H. injection H as <-. destruct r as [|y r]; [|simpl in Hm;
      destruct (math_max r); discriminate].
    split; [|now left]. intros z [<-|[]]. apply Qle_refl.
  - destruct (IH m eq_refl) as [Hub Hin].
    destruct (Qle_bool m x) eqn:E; intros H; injection H as <-.
    + apply Qle_bool_iff in E. split; [|now left].
      intros z [<-|Hz]; [apply Qle_refl|].
      eapply Qle_trans; [apply Hub, Hz|exact E].
    + assert (Hlt : (x <= m)%Q).
      { destruct (Qlt_le_dec m x) as [Hlt|Hle]; [|exact Hle].
        apply Qlt_le_weak, Qle_bool_iff in Hlt. congruence. }
      split; [|now right]. intros z [<-|Hz]; [exact Hlt|now apply Hub].
Qed.

Lemma math_max_nonempty (values : list Q) :
  values <> [] -> exists b, math_max values = Finite b.
Proof.
  destruct values as [|x r]; [contradiction|]. intros _. simpl.
  destruct (math_max r); eauto.
Qed.

(** X24: a result row is marked as the best in quality exactly when its
    score is positive and no row has a higher score; so ties are all
    marked, and nothing is marked when no score is positive or when there
    are no results. *)
Theorem isBestQuality_marks_the_maximum (rs : list JobComparisonItem)
    (item : JobComparisonItem) :
  In item rs ->
  (isBestQuality (Some rs) item = true
   <-> (0 < cmp_avg_quality_score item)%Q
       /\ forall other, In other rs ->
            (cmp_avg_quality_score other <= cmp_avg_quality_score item)%Q).
Proof.
  intros Hin. unfold isBestQuality, bestQuality, is_best.
  assert (Hne : map cmp_avg_quality_score rs <> []).
  { destruct rs; [destruct Hin|discriminate]. }
  destruct (math_max_nonempty _ Hne) as [b Hb]. rewrite Hb.
  destruct (math_max_upper _ _ Hb) as [Hub Hatt].
  assert (Hitem : (cmp_avg_quality_score item <= b)%Q)
    by (apply Hub, in_map, Hin).
  split.
  - intros H. apply andb_prop in H as [Heq Hpos].
    apply Qeq_bool_iff in Heq. apply negb_true_iff in Hpos.
    split.
    + rewrite Heq. destruct (Qlt_le_dec 0 b) as [Hlt|Hle]; [exact Hlt|].
      apply Qle_bool_iff in Hle. congruence.
    + intros other Ho. rewrite Heq. apply Hub, in_map, Ho.
  - intros [Hpos Hmax]. apply in_map_iff in Hatt as (top & Htop & Hin').
    assert (Hle : (b <= cmp_avg_quality_score item)%Q)
      by (rewrite <- Htop; now apply Hmax).
    assert (Heq : (cmp_avg_quality_score item == b)%Q)
      by (now apply Qle_antisym).
    apply andb_true_intro. split; [now apply Qeq_bool_iff|].
    apply negb_true_iff. destruct (Qle_bool b 0) eqn:E; [|reflexivity].
    apply Qle_bool_iff in E. rewrite <- Heq in E.
    exfalso. apply (Qlt_not_le _ _ Hpos E).
Qed.

Lemma isBestQuality_marks_the_maximum_witness :
  In (MoreSamples.a_result 1 (4 # 5)%Q) MoreSamples.some_results
  /\ isBestQuality (Some MoreSamples.some_results)
       (MoreSamples.a_result 1 (4 # 5)%Q) = true.
Proof.
  assert (Hin : In (MoreSamples.a_result 1 (4 # 5)%Q) MoreSamples.some_results)
    by (left; reflexivity).
  split; [exact Hin|].
  apply (proj2 (isBestQuality_marks_the_maximum MoreSamples.some_results
                  (MoreSamples.a_result 1 (4 # 5)%Q) Hin)).
  split; [reflexivity|].
  intros other [<-|[<-|[]]]; unfold Qle; simpl; lia.
Defined.

End CompareFacts.
